(** * Triple Town: the merge prototype (main.js), the view (App) and the
      engine behind the view

    A shallow embedding of the two JavaScript programs of the repository,
    and of the rules engine that the view calls.

    - [Prototype] embeds [src/main.js]: a global 6x6 [grid] of numbers that
      [handleClick] and [mergeTiles] mutate in place.  The global is threaded
      through a state-and-exception monad [M]; array reads follow JavaScript
      (an index outside the array gives [undefined], reading through
      [undefined] throws a [TypeError]).
    - [View] embeds the data the React component consults when it renders a
      board: the [ITEM_TYPES] table, the [isEmpty] test and the message that
      [makeMove] shows after a merge.
    - [Engine] follows the specification of the move API that the view
      posts to; the source of that engine is not in the repository.

    Cell values are JavaScript numbers.  The boards of the program only hold
    small non-negative integers (0, the tiles 1 and 2 drawn by
    [getRandomTile], and tiles raised by one per merge), so they are embedded
    as [Z] and [val + 1] is exact. *)

From Stdlib Require Import ZArith List Bool Lia.
From Stdlib Require Import Ascii Decimal DecimalString DecimalZ DecimalPos.
From stdpp Require Import base list strings gmap.

Local Open Scope Z_scope.

(** ** Prototype: src/main.js *)

Module Prototype.

(** [const gridSize = 6] *)
Definition gridSize : Z := 6.

(** [let grid]: an array of rows, each an array of numbers; [grid[y][x]]. *)
Abbreviation Grid := (list (list Z)).
Abbreviation coord := (Z * Z)%type.

(** [Array.from({ length: gridSize }, () => Array(gridSize).fill(0))] *)
Definition initial_grid : Grid :=
  replicate (Z.to_nat gridSize) (replicate (Z.to_nat gridSize) 0).

(** How a run can stop without a value.  [TypeError] is the exception
    JavaScript raises on [undefined[x]].  [Unmodelled] marks a run that
    leaves the fragment embedded here: a scanned cell that reads [undefined]
    or a write that would grow a row.  [OutOfFuel] belongs to the embedding
    of the recursion of [mergeTiles], not to the program. *)
Inductive error : Type := TypeError | Unmodelled | OutOfFuel.

Inductive res (A : Type) : Type :=
| Ok (a : A)
| Err (e : error).
Arguments Ok {A} a.
Arguments Err {A} e.

(** Computations over the global [grid]: the final grid is returned on
    every path, also when an exception is raised. *)
Definition M (A : Type) : Type := Grid -> Grid * res A.

Definition ret {A} (a : A) : M A := fun g => (g, Ok a).

Definition bind {A B} (m : M A) (k : A -> M B) : M B :=
  fun g => match m g with
           | (g', Ok a) => k a g'
           | (g', Err e) => (g', Err e)
           end.

Definition throw {A} (e : error) : M A := fun g => (g, Err e).

Definition get_grid : M Grid := fun g => (g, Ok g).

Notation "'let*' x ':=' m 'in' k" := (bind m (fun x => k))
  (at level 10, x name, m at level 100, k at level 200).
Notation "m ';;;' k" := (bind m (fun _ => k))
  (at level 100, k at level 200, right associativity).

(** [a[i]] on a JavaScript array: [undefined] ([None]) unless
    [0 <= i < a.length]. *)
Definition js_index {A} (a : list A) (i : Z) : option A :=
  if i <? 0 then None else a !! Z.to_nat i.

(** The value of [grid[y][x]] when no exception is raised; [None] is
    [undefined]. *)
Definition cell (g : Grid) (c : coord) : option Z :=
  match js_index g (snd c) with
  | None => None
  | Some row => js_index row (fst c)
  end.

(** Reading [grid[y][x]]: a missing row makes the second index throw. *)
Definition get (x y : Z) : M (option Z) :=
  fun g => match js_index g y with
           | None => (g, Err TypeError)
           | Some row => (g, Ok (js_index row x))
           end.

(** The grid after [grid[y][x] = v] for a cell that exists. *)
Definition put (g : Grid) (c : coord) (v : Z) : Grid :=
  alter (fun row => <[Z.to_nat (fst c) := v]> row) (Z.to_nat (snd c)) g.

(** The assignment [grid[y][x] = v]. *)
Definition set (x y v : Z) : M unit :=
  fun g => match js_index g y with
           | None => (g, Err TypeError)
           | Some row =>
               if (0 <=? x) && (x <? Z.of_nat (length row))
               then (put g (x, y) v, Ok tt)
               else (g, Err Unmodelled)
           end.

(** [grid[yy] && grid[yy][xx] === val]: a missing row is falsy and the
    conjunction stops there; a missing cell is [undefined], which is not
    [===] to a number. *)
Definition same_at (g : Grid) (val : Z) (c : coord) : bool :=
  match js_index g (snd c) with
  | None => false
  | Some row =>
      match js_index row (fst c) with
      | Some v => v =? val
      | None => false
      end
  end.

(** [[[1,0], [-1,0], [0,1], [0,-1]]] *)
Definition offsets : list coord := [(1, 0); (-1, 0); (0, 1); (0, -1)].

Definition shift (x y : Z) (d : coord) : coord := (x + fst d, y + snd d).

(** [sameTiles]: starts as [[[x, y]]]; the [forEach] over the offsets pushes
    every matching neighbour, in the order of the offsets. *)
Definition sameTiles (g : Grid) (val x y : Z) : list coord :=
  (x, y) :: filter (fun c => same_at g val c = true) (shift x y <$> offsets).

(** [l.forEach(f)] *)
Fixpoint forEach {A} (l : list A) (f : A -> M unit) : M unit :=
  match l with
  | [] => ret tt
  | a :: l' => f a ;;; forEach l' f
  end.

(** The body of the two loops at the cell [(x, y)] (lines 38 to 52); the
    local [merged] goes in and comes out.  [val + 1] is the sum JavaScript
    computes when [val] is a safe integer (below 2^53 in absolute value);
    beyond that its numbers round, which is not modelled, and statements
    that name the raised value bound [val] by [safe_integer]. *)
Definition scanCell (x y : Z) (merged : bool) : M bool :=
  let* v := get x y in
  match v with
  | None => throw Unmodelled
  | Some val =>
      if val =? 0 then ret merged
      else
        let* g := get_grid in
        let same := sameTiles g val x y in
        if (3 <=? length same)%nat then
          forEach same (fun c => set (fst c) (snd c) 0) ;;;
          set x y (val + 1) ;;;
          ret true
        else ret merged
  end.

(** [for (let i = 0; i < gridSize; i++) body]: the indices in order. *)
Definition indices : list Z := seqZ 0 gridSize.

Fixpoint forLoop (l : list Z) (body : Z -> bool -> M bool) (merged : bool)
  : M bool :=
  match l with
  | [] => ret merged
  | i :: l' => let* m := body i merged in forLoop l' body m
  end.

(** One pass over the board: the two nested loops of [mergeTiles], with
    [merged] starting at [false]. *)
Definition scan : M bool :=
  forLoop indices
    (fun y m => forLoop indices (fun x m' => scanCell x y m') m) false.

(** [mergeTiles]: a pass, and the function again when the pass merged.
    [fuel] bounds the number of passes. *)
Fixpoint mergeTiles (fuel : nat) : M unit :=
  match fuel with
  | O => throw OutOfFuel
  | S n => let* merged := scan in
           if merged then mergeTiles n else ret tt
  end.

(** [Math.random() < 0.8 ? 1 : 2]; the draw enters as the truth value of
    the comparison. *)
Definition getRandomTile (below_08 : bool) : Z := if below_08 then 1 else 2.

(** What a call returns to its caller. *)
Inductive js_value : Type :=
| js_undefined
| js_string (s : string).

(** [handleClick(x, y)].  [createGrid], which redraws the page from the
    grid, is not part of the embedding. *)
Definition handleClick (below_08 : bool) (fuel : nat) (x y : Z) : M js_value :=
  let* v := get x y in
  match v with
  | Some 0 =>
      set x y (getRandomTile below_08) ;;;
      mergeTiles fuel ;;;
      ret js_undefined
  | _ => ret js_undefined
  end.

(** *** Vocabulary of the statements *)

(** The grid after the cells of [l] have been set to [v], one after the
    other; with 0, this is the [forEach] of line 49.  Then the grid after the
    collapse of lines 49 and 50. *)
Definition fill (g : Grid) (l : list coord) (v : Z) : Grid :=
  foldl (fun g' c => put g' c v) g l.

Definition clear (g : Grid) (l : list coord) : Grid := fill g l 0.

Definition collapse (g : Grid) (val x y : Z) : Grid :=
  put (clear g (sameTiles g val x y)) (x, y) (val + 1).

(** The coordinates of the board, in the order of the scan. *)
Definition cells : list coord :=
  y ← indices; x ← indices; [(x, y)].

Definition on_board (c : coord) : Prop :=
  0 <= fst c < gridSize /\ 0 <= snd c < gridSize.

(** A board as the program keeps it: [gridSize] rows of [gridSize] cells. *)
Definition wf_grid (g : Grid) : bool :=
  (length g =? Z.to_nat gridSize)%nat
  && forallb (fun row => (length row =? Z.to_nat gridSize)%nat) g.

Definition occupied_at (g : Grid) (c : coord) : bool :=
  match cell g c with
  | Some v => negb (v =? 0)
  | None => false
  end.

(** Number of occupied cells of the board. *)
Definition occupied (g : Grid) : nat :=
  length (filter (fun c => occupied_at g c = true) cells).

(** The cell is occupied and the group found around it has three members
    or more: the test of line 48. *)
Definition has_group (g : Grid) (c : coord) : bool :=
  match cell g c with
  | Some v => negb (v =? 0) && (3 <=? length (sameTiles g v (fst c) (snd c)))%nat
  | None => false
  end.

(** No cell of the board has a group to collapse. *)
Definition stable (g : Grid) : Prop :=
  forall c, on_board c -> has_group g c = false.

(** Boards used as examples. *)
Definition empty_row : list Z := [0; 0; 0; 0; 0; 0].

(** Two tiles 1 side by side in the top left corner. *)
Definition pair_board : Grid :=
  [[1; 1; 0; 0; 0; 0]; empty_row; empty_row; empty_row; empty_row; empty_row].

(** Three tiles 1 in the shape of an L in the top left corner. *)
Definition corner_board : Grid :=
  [[1; 1; 0; 0; 0; 0]; [1; 0; 0; 0; 0; 0];
   empty_row; empty_row; empty_row; empty_row].

(** Four tiles 1 in a line. *)
Definition line_board : Grid :=
  [[1; 1; 1; 1; 0; 0]; empty_row; empty_row; empty_row; empty_row; empty_row].

(** What a pass keeps true while it runs from the board [g0]: the board
    stays a board, empty cells stay empty, and [merged] is set exactly when
    a collapse has removed cells. *)
Definition pass_inv (g0 : Grid) (merged : bool) (g : Grid) : Prop :=
  wf_grid g = true /\
  (forall c, cell g0 c = Some 0 -> cell g c = Some 0) /\
  (occupied g <= occupied g0)%nat /\
  if merged
  then (occupied g + 2 <= occupied g0)%nat /\
       exists c, on_board c /\ has_group g0 c = true
  else g = g0.

(** Orthogonal adjacency. *)
Definition adjacent (a b : coord) : Prop :=
  Z.abs (fst a - fst b) + Z.abs (snd a - snd b) = 1.

(** [b] is reached from [a] by a chain of orthogonally adjacent cells that
    all hold [v]. *)
Inductive connected (g : Grid) (v : Z) : coord -> coord -> Prop :=
| connected_refl a : cell g a = Some v -> connected g v a a
| connected_step a b c :
    connected g v a b -> adjacent b c -> cell g c = Some v ->
    connected g v a c.

(** The boards the program can reach: the initial one and every board a
    click leaves behind. *)
Inductive reachable : Grid -> Prop :=
| reachable_initial : reachable initial_grid
| reachable_click g below_08 fuel x y g' v :
    reachable g ->
    handleClick below_08 fuel x y g = (g', Ok v) ->
    reachable g'.

(** [Number.isSafeInteger]: the integers on which the [val + 1] of line 50
    is the exact sum, and which JavaScript writes with all their digits. *)
Definition safe_integer (v : Z) : bool := (- 2 ^ 53 <? v) && (v <? 2 ^ 53).

(** Every number of the grid is a safe integer. *)
Definition safe_grid (g : Grid) : bool := forallb (forallb safe_integer) g.

(** Clicks made one after the other, each with the outcome of its draw and
    with room for three passes; [None] when one of them does not return. *)
Fixpoint clicks (l : list (bool * coord)) (g : Grid) : option Grid :=
  match l with
  | [] => Some g
  | (below_08, c) :: l' =>
      match handleClick below_08 3 (fst c) (snd c) g with
      | (g', Ok _) => clicks l' g'
      | (_, Err _) => None
      end
  end.

(** More boards used as examples.  Two pairs of tiles 1 around a gap. *)
Definition two_pairs_board : Grid :=
  [[1; 1; 0; 1; 1; 0]; empty_row; empty_row; empty_row; empty_row; empty_row].

(** Two tiles 2 around a gap. *)
Definition bush_gap_board : Grid :=
  [[2; 0; 2; 0; 0; 0]; empty_row; empty_row; empty_row; empty_row; empty_row].

(** A pair of tiles 3 above a pair of tiles 2, next to a pair of tiles 1. *)
Definition stairs_board : Grid :=
  [[0; 0; 3; 3; 0; 0]; [1; 1; 2; 2; 0; 0];
   empty_row; empty_row; empty_row; empty_row].

(** Three tiles [t] in a line. *)
Definition row_of_three (t : Z) : Grid :=
  [[t; t; t; 0; 0; 0]; empty_row; empty_row; empty_row; empty_row; empty_row].

End Prototype.

(** ** View: the React component [App] *)

Module View.

(** [const GRID_SIZE = 6] *)
Definition GRID_SIZE : Z := 6.

Record item : Type := { name : string; emoji : string; color : string }.

(** [ITEM_TYPES]: the object literal, as its list of entries.  The computed
    keys [[-1]], [[-2]], [[-3]] and [[-99]] are the numbers written. *)
Definition ITEM_TYPES : list (Z * item) :=
  [ (0, {| name := "grass"; emoji := "🌱"; color := "#4ade80" |});
    (1, {| name := "bush"; emoji := "🌿"; color := "#22c55e" |});
    (2, {| name := "tree"; emoji := "🌳"; color := "#16a34a" |});
    (3, {| name := "house"; emoji := "🏠"; color := "#dc2626" |});
    (4, {| name := "mansion"; emoji := "🏛️"; color := "#7c2d12" |});
    (5, {| name := "castle"; emoji := "🏰"; color := "#7c3aed" |});
    (6, {| name := "crystal"; emoji := "💎"; color := "#06b6d4" |});
    (7, {| name := "monument"; emoji := "🗿"; color := "#fbbf24" |});
    (-1, {| name := "bear"; emoji := "🐻"; color := "#92400e" |});
    (-2, {| name := "tombstone"; emoji := "🪦"; color := "#6b7280" |});
    (-3, {| name := "rock"; emoji := "🪨"; color := "#374151" |});
    (-99, {| name := "empty"; emoji := EmptyString; color := "#1f2937" |}) ].

(** [o[key]] on an object given by its entries: [undefined] ([None]) when
    the key is absent. *)
Fixpoint js_property {A} (o : list (Z * A)) (key : Z) : option A :=
  match o with
  | [] => None
  | (k, a) :: o' => if k =? key then Some a else js_property o' key
  end.

(** [getTileContent]: the entry of the table, and for a value without an
    entry an object with an empty emoji and the colour of the empty cell
    (and no name). *)
Definition getTileContent (itemType : Z) : string * string :=
  match js_property ITEM_TYPES itemType with
  | Some it => (emoji it, color it)
  | None => (EmptyString, "#1f2937")
  end.

(** [const isEmpty = cell === -99] *)
Definition isEmpty (cell : Z) : bool := cell =? -99.

(** [disabled={!isEmpty || gameState.game_over || loading}] *)
Definition disabled (cell : Z) (game_over loading : bool) : bool :=
  negb (isEmpty cell) || game_over || loading.

(** The legend: the entries of the table, without those the callback turns
    into [null] ([itemKey < 0 || itemKey > 7]). *)
Definition in_legend (itemKey : Z) : bool :=
  negb ((itemKey <? 0) || (itemKey >? 7)).

Definition legend : list (Z * item) :=
  filter (fun e => in_legend (fst e) = true) ITEM_TYPES.

(** The points announced by [makeMove] after a merge:
    [response.data.merged_positions.length * 10]. *)
Definition announced_points (merged_positions_length : nat) : Z :=
  Z.of_nat merged_positions_length * 10.

End View.

(** ** Engine: the rules engine the view calls

    The view posts every move to [/game/move] and shows the score and the
    merged positions of the answer.  The engine that answers is not among
    the sources of the repository; the definitions of this module follow its
    description in the specification (sections 3, 4 and 6).  Boards are
    stored as in the prototype, as a list of rows. *)

Module Engine.

(** Modelled from the spec: the side N = 6 of the grid (section 3). *)
Definition N : Z := 6.

(** Modelled from the spec: the value of an Empty cell (section 6); the
    engine that produces the grids is missing from the sources. *)
Definition EMPTY : Z := -99.

(** Modelled from the spec: the value of a Blocker (section 6). *)
Definition BLOCKER : Z := -1.

(** Modelled from the spec: the value of a Converted-blocker marker
    (section 6). *)
Definition MARKER : Z := -2.

(** Modelled from the spec: the value of an Obstruction (section 6). *)
Definition OBSTRUCTION : Z := -3.

(** Modelled from the spec: the lowest and the highest level of the tier
    progression (section 6). *)
Definition LOWEST_TIER : Z := 0.
Definition HIGHEST_TIER : Z := 7.

(** Modelled from the spec: [Grid.get] of section 4.1, missing from the
    sources; [None] outside the grid. *)
Definition get (g : Prototype.Grid) (c : Prototype.coord) : option Z :=
  Prototype.cell g c.

(** Modelled from the spec: [Grid.set] of section 4.1, missing from the
    sources. *)
Definition set (g : Prototype.Grid) (c : Prototype.coord) (v : Z)
  : Prototype.Grid :=
  Prototype.put g c v.

(** Modelled from the spec: [Grid.isEmpty] of section 4.1, missing from the
    sources. *)
Definition isEmpty (g : Prototype.Grid) (c : Prototype.coord) : bool :=
  match get g c with
  | Some v => v =? EMPTY
  | None => false
  end.

(** Modelled from the spec: the constraint [0 <= x, y < N] of section 4.1,
    missing from the sources. *)
Definition in_bounds (c : Prototype.coord) : bool :=
  (0 <=? fst c) && (fst c <? N) && (0 <=? snd c) && (snd c <? N).

(** Modelled from the spec: [Grid.neighbors4] of section 4.1, missing from
    the sources: the orthogonally adjacent coordinates inside the grid. *)
Definition neighbors4 (c : Prototype.coord) : list Prototype.coord :=
  filter (fun d => in_bounds d = true)
         (Prototype.shift (fst c) (snd c) <$> Prototype.offsets).

(** Modelled from the spec: [Grid.isFull] of section 4.1, missing from the
    sources: no coordinate is Empty. *)
Definition isFull (g : Prototype.Grid) : bool :=
  forallb (fun c => negb (isEmpty g c)) Prototype.cells.

(** Modelled from the spec: which values merge (section 3), missing from
    the sources: tier items with their own level, markers with markers;
    blockers, obstructions and empty cells never. *)
Definition mergeable (v : Z) : bool :=
  ((LOWEST_TIER <=? v) && (v <=? HIGHEST_TIER)) || (v =? MARKER).

(** Modelled from the spec: the product of a merge (sections 4.2 and 4.3),
    missing from the sources: the next tier, capped at the highest, and the
    lowest tier for markers. *)
Definition next_level (v : Z) : Z :=
  if v =? MARKER then LOWEST_TIER else Z.min (v + 1) HIGHEST_TIER.

(** Modelled from the spec: the component search of section 4.2 (a
    worklist and a visited set, section 9), missing from the sources.
    [seen] holds every coordinate ever put on the worklist. *)
Fixpoint search (fuel : nat) (g : Prototype.Grid) (v : Z)
    (work seen : list Prototype.coord) : list Prototype.coord :=
  match fuel, work with
  | S n, c :: rest =>
      let fresh :=
        filter (fun d => get g d = Some v /\ d ∉ seen) (neighbors4 c) in
      search n g v (rest ++ fresh) (seen ++ fresh)
  | _, _ => seen
  end.

(** Modelled from the spec: the merge group of a coordinate (section 4.2),
    missing from the sources.  Every cell is put on the worklist at most
    once, so N * N steps exhaust it. *)
Definition group (g : Prototype.Grid) (origin : Prototype.coord)
  : list Prototype.coord :=
  match get g origin with
  | Some v =>
      if mergeable v
      then search (Z.to_nat (N * N)) g v [origin] [origin]
      else [origin]
  | None => [origin]
  end.

(** Modelled from the spec: the collapse of a group (section 4.2), missing
    from the sources: every coordinate but the origin is cleared, the origin
    takes the next level. *)
Definition collapse (g : Prototype.Grid) (origin : Prototype.coord)
    (grp : list Prototype.coord) (v : Z) : Prototype.Grid :=
  set (Prototype.fill g (filter (fun c => c <> origin) grp) EMPTY)
      origin (next_level v).

(** Modelled from the spec: the result of [resolve] (section 4.2), with the
    grid it leaves. *)
Record resolution : Type := {
  board : Prototype.Grid;
  mergedPositions : list Prototype.coord;
  scoreDelta : Z
}.

(** Modelled from the spec: [resolve] of section 4.2, missing from the
    sources.  A group of fewer than three gives the empty result; a larger
    one collapses and the resolver runs again at the origin.  The cleared and
    levelled coordinates of all rounds are accumulated as a set, and every
    round adds 10 per removed coordinate.  [fuel] bounds the rounds. *)
Fixpoint resolve_rounds (fuel : nat) (g : Prototype.Grid)
    (origin : Prototype.coord) : option resolution :=
  match fuel with
  | O => None
  | S n =>
      let grp := group g origin in
      match get g origin with
      | Some v =>
          if (3 <=? length grp)%nat then
            match resolve_rounds n (collapse g origin grp v) origin with
            | Some r =>
                Some {| board := board r;
                        mergedPositions :=
                          list_union grp (mergedPositions r);
                        scoreDelta :=
                          10 * (Z.of_nat (length grp) - 1) + scoreDelta r |}
            | None => None
            end
          else Some {| board := g; mergedPositions := []; scoreDelta := 0 |}
      | None => None
      end
  end.

(** Modelled from the spec: [resolve] of section 4.2.  Every round removes
    two cells or more, so N * N rounds are never used up. *)
Definition resolve (g : Prototype.Grid) (origin : Prototype.coord)
  : option resolution :=
  resolve_rounds (Z.to_nat (N * N)) g origin.

(** Modelled from the spec: the enclosure test of section 4.3, missing from
    the sources: every neighbour inside the grid is non-Empty. *)
Definition enclosed (g : Prototype.Grid) (c : Prototype.coord) : bool :=
  forallb (fun d => negb (isEmpty g d)) (neighbors4 c).

(** Modelled from the spec: the enclosure pass of section 4.3, missing from
    the sources: every enclosed blocker becomes a marker.  A conversion
    leaves the emptiness of every cell as it was, so one pass over the grid
    is the fixed point. *)
Definition enclosure (g : Prototype.Grid) : Prototype.Grid :=
  foldl (fun g' c =>
           match get g' c with
           | Some v => if (v =? BLOCKER) && enclosed g' c
                       then set g' c MARKER else g'
           | None => g'
           end) g Prototype.cells.

(** Modelled from the spec: the Game Session of section 3. *)
Record Session : Type := {
  grid : Prototype.Grid;
  score : Z;
  movesPlayed : nat;
  nextItem : Z;
  terminal : bool
}.

(** Modelled from the spec: [newGame] of section 4.4, missing from the
    sources; the random next item is an argument. *)
Definition newGame (drawn : Z) : Session :=
  {| grid := replicate (Z.to_nat N) (replicate (Z.to_nat N) EMPTY);
     score := 0; movesPlayed := 0; nextItem := drawn; terminal := false |}.

(** Modelled from the spec: the two results of [placePiece]
    (section 4.4). *)
Inductive result : Type :=
| Rejected (reason : string)
| Accepted (s : Session) (merged_positions : list Prototype.coord).

(** Modelled from the spec: the grid work of an accepted placement
    (section 4.4), missing from the sources: the next item is written, the
    enclosure pass runs, the resolver runs at the coordinate. *)
Definition placement (s : Session) (c : Prototype.coord)
  : option resolution :=
  resolve (enclosure (set (grid s) c (nextItem s))) c.

(** Modelled from the spec: [placePiece] of section 4.4, missing from the
    sources.  [drawn] is the item the spawn policy draws for the next
    placement.  [None] stands for a resolver that did not finish. *)
Definition placePiece (drawn : Z) (s : Session) (c : Prototype.coord)
  : option result :=
  if terminal s then Some (Rejected "game over")
  else if negb (in_bounds c) then Some (Rejected "out of bounds")
  else if negb (isEmpty (grid s) c) then Some (Rejected "cell occupied")
  else
    match placement s c with
    | Some r =>
        Some (Accepted {| grid := board r;
                          score := score s + scoreDelta r;
                          movesPlayed := S (movesPlayed s);
                          nextItem := drawn;
                          terminal := isFull (board r) |}
                       (mergedPositions r))
    | None => None
    end.

(** Modelled from the spec: a game (section 8), a session and the requests
    made to it in order, each with the item drawn after it.  The second
    component lists the [scoreDelta] of the accepted placements. *)
Fixpoint play (s : Session) (requests : list (Prototype.coord * Z))
  : option (Session * list Z) :=
  match requests with
  | [] => Some (s, [])
  | (c, drawn) :: rest =>
      match placePiece drawn s c with
      | Some (Accepted s' _) =>
          match placement s c, play s' rest with
          | Some r, Some (s'', deltas) => Some (s'', scoreDelta r :: deltas)
          | _, _ => None
          end
      | Some (Rejected _) => play s rest
      | None => None
      end
  end.

(** Number of non-Empty cells of the grid. *)
Definition occupied (g : Prototype.Grid) : nat :=
  length (filter (fun c => isEmpty g c = false) Prototype.cells).

(** A session as the engine keeps it: a grid of N rows of N cells and a
    next item that is not Empty. *)
Definition wf_session (s : Session) : bool :=
  Prototype.wf_grid (grid s) && negb (nextItem s =? EMPTY).

(** Scenario B of section 8: grass at (0, 0) and (1, 0), grass next. *)
Definition scenario_B : Session :=
  {| grid := [[0; 0; -99; -99; -99; -99];
              [-99; -99; -99; -99; -99; -99];
              [-99; -99; -99; -99; -99; -99];
              [-99; -99; -99; -99; -99; -99];
              [-99; -99; -99; -99; -99; -99];
              [-99; -99; -99; -99; -99; -99]];
     score := 0; movesPlayed := 2; nextItem := 0; terminal := false |}.

End Engine.

(** ** Page: the rendering of the prototype (createGrid of main.js) *)

Module Page.
Import Prototype.

(** The string JavaScript makes of an integer below 10^21 in absolute value,
    as every safe integer is: its decimal digits, with a minus sign in front
    when it is negative.  (From 10^21 on JavaScript writes an exponent, which
    is not modelled; statements about the text of a number bound it.) *)
Definition js_string_of_int (z : Z) : string :=
  NilZero.string_of_int (Z.to_int z).

(** A [div] of the page, as [createGrid] builds it: its classes, its
    [data-type] attribute and text when they were assigned, and the cell its
    click listener passes to [handleClick]. *)
Record element : Type := {
  classList : list string;
  dataset_type : option string;
  textContent : option string;
  listener : coord
}.

(** [if (value > 0) { cell.dataset.type = value; cell.textContent = value; }]:
    the string assigned, if any.  [undefined > 0] is false. *)
Definition label (value : option Z) : option string :=
  match value with
  | Some n => if n >? 0 then Some (js_string_of_int n) else None
  | None => None
  end.

(** The body of the loops of [createGrid] (lines 9 to 17): the element
    appended for the cell [(x, y)]. *)
Definition createCell (x y : Z) : M element :=
  let* value := get x y in
  ret {| classList := ["cell"%string];
         dataset_type := label value;
         textContent := label value;
         listener := (x, y) |}.

(** [for (let i = 0; i < gridSize; i++) body], with the children appended
    so far going in and coming out. *)
Fixpoint forChildren (l : list Z)
    (body : Z -> list element -> M (list element))
    (children : list element) : M (list element) :=
  match l with
  | [] => ret children
  | i :: l' => let* children' := body i children in
               forChildren l' body children'
  end.

(** [createGrid]: the container is emptied and receives one element per
    cell, row after row; the result is the list of its children. *)
Definition createGrid : M (list element) :=
  forChildren indices
    (fun y children =>
       forChildren indices
         (fun x children' =>
            let* el := createCell x y in ret (children' ++ [el]))
         children)
    [].

(** A click on an element: the listener [() => handleClick(x, y)]. *)
Definition click (below_08 : bool) (fuel : nat) (el : element) : M js_value :=
  handleClick below_08 fuel (fst (listener el)) (snd (listener el)).

(** The element drawn for a cell. *)
Definition element_of (g : Grid) (c : coord) : element :=
  {| classList := ["cell"%string];
     dataset_type := label (cell g c);
     textContent := label (cell g c);
     listener := c |}.

(** No cell holds a negative number. *)
Definition nonneg (g : Grid) : Prop :=
  forall c v, cell g c = Some v -> 0 <= v.

(** What a cell can become: it keeps its content, it is cleared, or an
    occupied cell holds a greater number. *)
Definition kept_cleared_or_raised (before after : option Z) : Prop :=
  after = before \/ after = Some 0 \/
  exists v v', v <> 0 /\ before = Some v /\ after = Some v' /\ v < v'.

(** The board after one click on the initial grid. *)
Definition one_tile_board : Grid :=
  [empty_row; empty_row; empty_row; [0; 0; 1; 0; 0; 0]; empty_row; empty_row].

End Page.

(** ** ViewState: the keys of the animated tiles (App) *)

Module ViewState.

(** [getTileKey]: the template [`${x}-${y}`]. *)
Definition getTileKey (x y : Z) : string :=
  Page.js_string_of_int x +:+ "-" +:+ Page.js_string_of_int y.

(** [new Set(merged_positions.map(pos => `${pos.x}-${pos.y}`))] *)
Definition mergedSet (merged_positions : list (Z * Z)) : gset string :=
  list_to_set ((fun pos => getTileKey (fst pos) (snd pos)) <$> merged_positions).

(** The string has no minus sign. *)
Fixpoint no_dash (s : string) : bool :=
  match s with
  | EmptyString => true
  | String a s' => negb (Ascii.eqb a "-"%char) && no_dash s'
  end.

(** [animatingTiles.has(tileKey)] for the tile at [(x, y)]. *)
Definition isAnimating (animatingTiles : gset string) (x y : Z) : bool :=
  bool_decide (getTileKey x y ∈ animatingTiles).

End ViewState.

(** ** Facts about the prototype *)

Module PrototypeFacts.
Import Prototype.

(** *** Arrays and the board *)

Lemma js_index_Some {A} (a : list A) (i : Z) (v : A) :
  js_index a i = Some v <-> 0 <= i /\ a !! Z.to_nat i = Some v.
Proof.
  unfold js_index. destruct (Z.ltb_spec i 0); split.
  - discriminate.
  - intros [? _]. lia.
  - auto.
  - intros [_ ?]. assumption.
Qed.

Lemma js_index_lt {A} (a : list A) (i : Z) (v : A) :
  js_index a i = Some v -> 0 <= i < Z.of_nat (length a).
Proof.
  intros [Hi Hl]%js_index_Some. apply lookup_lt_Some in Hl. lia.
Qed.

Lemma js_index_in_range {A} (a : list A) (i : Z) :
  0 <= i < Z.of_nat (length a) -> exists v, js_index a i = Some v.
Proof.
  intros Hi. destruct (lookup_lt_is_Some_2 a (Z.to_nat i)) as [v Hv]; [lia|].
  exists v. apply js_index_Some. split; [lia | exact Hv].
Qed.

Lemma cell_Some (g : Grid) (c : coord) (v : Z) :
  cell g c = Some v <->
  exists row, js_index g (snd c) = Some row /\ js_index row (fst c) = Some v.
Proof.
  unfold cell. destruct (js_index g (snd c)) as [row|]; split.
  - intros H. exists row. auto.
  - intros (row' & Hr & Hv). congruence.
  - discriminate.
  - intros (row' & Hr & _). discriminate.
Qed.

Lemma same_at_cell (g : Grid) (val : Z) (c : coord) :
  same_at g val c = true <-> cell g c = Some val.
Proof.
  unfold same_at, cell. destruct (js_index g (snd c)) as [row|]; [|easy].
  destruct (js_index row (fst c)) as [v|]; [|easy].
  rewrite Z.eqb_eq. split; congruence.
Qed.

Lemma wf_grid_spec (g : Grid) :
  wf_grid g = true <->
  length g = 6%nat /\ (forall row, row ∈ g -> length row = 6%nat).
Proof.
  unfold wf_grid. rewrite andb_true_iff, Nat.eqb_eq, forallb_forall.
  change (Z.to_nat gridSize) with 6%nat.
  split; intros [Hl Hr]; split; try exact Hl; intros row Hin.
  - apply Nat.eqb_eq, Hr, list_elem_of_In, Hin.
  - apply Nat.eqb_eq, Hr, list_elem_of_In, Hin.
Qed.

Lemma wf_cell_on_board (g : Grid) (c : coord) (v : Z) :
  wf_grid g = true -> cell g c = Some v -> on_board c.
Proof.
  intros [Hl Hr]%wf_grid_spec (row & Hrow & Hv)%cell_Some.
  pose proof (js_index_lt _ _ _ Hrow) as Hy.
  pose proof (js_index_lt _ _ _ Hv) as Hx.
  apply js_index_Some in Hrow as [_ Hrow].
  apply list_elem_of_lookup_2 in Hrow. apply Hr in Hrow.
  unfold on_board, gridSize. lia.
Qed.

Lemma wf_on_board_cell (g : Grid) (c : coord) :
  wf_grid g = true -> on_board c -> exists v, cell g c = Some v.
Proof.
  intros [Hl Hr]%wf_grid_spec [Hx Hy]. unfold gridSize in *.
  destruct (js_index_in_range g (snd c)) as [row Hrow]; [lia|].
  assert (length row = 6%nat) as Hlen.
  { apply Hr. apply js_index_Some in Hrow as [_ Hrow].
    eapply list_elem_of_lookup_2, Hrow. }
  destruct (js_index_in_range row (fst c)) as [v Hv]; [lia|].
  exists v. apply cell_Some. eauto.
Qed.

Lemma cell_put (g : Grid) (c c' : coord) (v : Z) :
  0 <= fst c -> 0 <= snd c ->
  cell (put g c v) c' = if decide (c' = c) then (fun _ => v) <$> cell g c else cell g c'.
Proof.
  intros Hx Hy. destruct c as [x y], c' as [x' y']. simpl in *.
  unfold cell, put, js_index. simpl.
  destruct (Z.ltb_spec y' 0) as [Hy'|Hy'].
  { destruct (decide _) as [[= -> ->]|]; [lia | reflexivity]. }
  destruct (decide (Z.to_nat y = Z.to_nat y')) as [Heq|Hne].
  - assert (y' = y) as -> by lia.
    rewrite list_lookup_alter_eq.
    destruct (Z.ltb_spec y 0); [lia|].
    destruct (g !! Z.to_nat y) as [row|]; simpl.
    + destruct (Z.ltb_spec x' 0) as [Hx'|Hx'].
      { destruct (decide _) as [[= ->]|]; [lia | reflexivity]. }
      destruct (Z.ltb_spec x 0); [lia|].
      destruct (decide (Z.to_nat x = Z.to_nat x')) as [Hxe|Hxn].
      * assert (x' = x) as -> by lia. rewrite decide_True by reflexivity.
        destruct (row !! Z.to_nat x) as [w|] eqn:Hw; simpl.
        -- apply list_lookup_insert_eq. eapply lookup_lt_Some, Hw.
        -- rewrite list_insert_ge; [exact Hw|]. apply lookup_ge_None, Hw.
      * rewrite list_lookup_insert_ne by exact Hxn.
        rewrite decide_False; [reflexivity|]. intros [= ->]. lia.
    + destruct (decide _); reflexivity.
  - rewrite list_lookup_alter_ne by exact Hne.
    rewrite decide_False; [reflexivity|]. intros [= -> ->]. lia.
Qed.

Lemma wf_put (g : Grid) (c : coord) (v : Z) :
  wf_grid g = true -> wf_grid (put g c v) = true.
Proof.
  rewrite !wf_grid_spec. intros [Hl Hr]. unfold put. split.
  - rewrite length_alter. exact Hl.
  - intros row (i & Hi)%list_elem_of_lookup_1.
    destruct (decide (Z.to_nat (snd c) = i)) as [<-|Hne].
    + rewrite list_lookup_alter_eq in Hi.
      destruct (g !! Z.to_nat (snd c)) as [row0|] eqn:H0; [|discriminate].
      injection Hi as <-. rewrite length_insert.
      eapply Hr, list_elem_of_lookup_2, H0.
    + rewrite list_lookup_alter_ne in Hi by exact Hne.
      eapply Hr, list_elem_of_lookup_2, Hi.
Qed.

Lemma cell_put_is_Some (g : Grid) (c c' : coord) (v : Z) :
  0 <= fst c -> 0 <= snd c ->
  is_Some (cell (put g c v) c') <-> is_Some (cell g c').
Proof.
  intros Hx Hy. rewrite cell_put by assumption.
  destruct (decide (c' = c)) as [->|]; [|reflexivity].
  rewrite fmap_is_Some. reflexivity.
Qed.

Lemma set_existing (g : Grid) (x y v w : Z) :
  cell g (x, y) = Some w -> set x y v g = (put g (x, y) v, Ok tt).
Proof.
  intros (row & Hrow & Hw)%cell_Some. simpl in *.
  unfold set. rewrite Hrow.
  pose proof (js_index_lt _ _ _ Hw) as Hx.
  destruct (Z.leb_spec 0 x); [|lia].
  destruct (Z.ltb_spec x (Z.of_nat (length row))); [|lia].
  reflexivity.
Qed.

Lemma cell_nonneg (g : Grid) (c : coord) (v : Z) :
  cell g c = Some v -> 0 <= fst c /\ 0 <= snd c.
Proof.
  intros (row & Hrow & Hv)%cell_Some.
  apply js_index_lt in Hrow, Hv. lia.
Qed.

Lemma forEach_clear (l : list coord) (g : Grid) :
  (forall c, c ∈ l -> is_Some (cell g c)) ->
  forEach l (fun c => set (fst c) (snd c) 0) g = (clear g l, Ok tt).
Proof.
  revert g. induction l as [|c l IH]; intros g Hl; [reflexivity|].
  destruct (Hl c) as [w Hw]; [left|].
  simpl. unfold bind. destruct c as [x y]; simpl.
  rewrite (set_existing _ _ _ _ _ Hw).
  apply IH. intros c' Hc'.
  destruct (cell_nonneg _ _ _ Hw).
  apply cell_put_is_Some; [assumption..|]. apply Hl. right. exact Hc'.
Qed.

Lemma cell_fill (l : list coord) (g : Grid) (v : Z) (c' : coord) :
  (forall c, c ∈ l -> is_Some (cell g c)) ->
  cell (fill g l v) c' =
  if decide (c' ∈ l) then (fun _ => v) <$> cell g c' else cell g c'.
Proof.
  revert g. induction l as [|c l IH]; intros g Hl.
  { change (fill g [] v) with g.
    rewrite decide_False; [reflexivity|]. apply not_elem_of_nil. }
  destruct (Hl c) as [w Hw]; [left|].
  destruct (cell_nonneg _ _ _ Hw) as [Hx Hy].
  change (fill g (c :: l) v) with (fill (put g c v) l v). rewrite IH.
  2:{ intros c0 Hc0. apply cell_put_is_Some; [assumption..|].
      apply Hl. right. exact Hc0. }
  rewrite cell_put by assumption.
  destruct (decide (c' = c)) as [->|Hne].
  - rewrite (decide_True (P := c ∈ c :: l)) by left.
    destruct (decide (c ∈ l)); destruct (cell g c); reflexivity.
  - destruct (decide (c' ∈ l)) as [Hin|Hnin].
    + rewrite decide_True by (right; exact Hin). reflexivity.
    + rewrite decide_False; [reflexivity|].
      intros [->|?]%elem_of_cons; contradiction.
Qed.

Lemma wf_fill (l : list coord) (g : Grid) (v : Z) :
  wf_grid g = true -> wf_grid (fill g l v) = true.
Proof.
  revert g. induction l as [|c l IH]; intros g Hg; [exact Hg|].
  simpl. apply IH, wf_put, Hg.
Qed.

Lemma cell_clear (l : list coord) (g : Grid) (c' : coord) :
  (forall c, c ∈ l -> is_Some (cell g c)) ->
  cell (clear g l) c' =
  if decide (c' ∈ l) then (fun _ => 0) <$> cell g c' else cell g c'.
Proof. apply cell_fill. Qed.

Lemma wf_clear (l : list coord) (g : Grid) :
  wf_grid g = true -> wf_grid (clear g l) = true.
Proof. apply wf_fill. Qed.

(** *** The group found around a cell *)

Lemma elem_of_neighbours (x y : Z) (c : coord) :
  c ∈ shift x y <$> offsets <-> adjacent (x, y) c.
Proof.
  unfold offsets, adjacent, shift. simpl. destruct c as [cx cy]. simpl.
  rewrite !elem_of_cons, elem_of_nil. split.
  - intros [H|[H|[H|[H|[]]]]]; injection H as -> ->; lia.
  - intros H.
    assert ((cx = x + 1 /\ cy = y + 0) \/ (cx = x + -1 /\ cy = y + 0) \/
            (cx = x + 0 /\ cy = y + 1) \/ (cx = x + 0 /\ cy = y + -1))
      as [[-> ->]|[[-> ->]|[[-> ->]|[-> ->]]]] by lia; auto.
Qed.

Lemma NoDup_neighbours (x y : Z) : NoDup (shift x y <$> offsets).
Proof.
  unfold offsets, shift. simpl.
  repeat (apply NoDup_cons; split;
          [rewrite ?elem_of_cons, elem_of_nil; intros H;
           repeat (destruct H as [H|H]; [injection H; lia|]); exact H|]).
  apply NoDup_nil. exact I.
Qed.

Lemma not_adjacent_self (c : coord) : ~ adjacent c c.
Proof. unfold adjacent. lia. Qed.

Lemma elem_of_sameTiles (g : Grid) (val x y : Z) (c : coord) :
  c ∈ sameTiles g val x y <->
  c = (x, y) \/ (adjacent (x, y) c /\ cell g c = Some val).
Proof.
  unfold sameTiles.
  rewrite elem_of_cons, list_elem_of_filter, elem_of_neighbours, same_at_cell.
  tauto.
Qed.

Lemma NoDup_sameTiles (g : Grid) (val x y : Z) :
  NoDup (sameTiles g val x y).
Proof.
  unfold sameTiles. apply NoDup_cons. split.
  - rewrite list_elem_of_filter, elem_of_neighbours.
    intros [_ H]. exact (not_adjacent_self _ H).
  - apply NoDup_filter, NoDup_neighbours.
Qed.

Lemma sameTiles_exist (g : Grid) (val x y : Z) (c : coord) :
  cell g (x, y) = Some val -> c ∈ sameTiles g val x y -> cell g c = Some val.
Proof.
  intros Hc [->|[_ H]]%elem_of_sameTiles; assumption.
Qed.

Lemma cell_collapse (g : Grid) (val x y : Z) (c : coord) :
  cell g (x, y) = Some val ->
  cell (collapse g val x y) c =
  if decide (c = (x, y)) then Some (val + 1)
  else if decide (c ∈ sameTiles g val x y) then Some 0
  else cell g c.
Proof.
  intros Hc. unfold collapse.
  destruct (cell_nonneg _ _ _ Hc) as [Hx Hy].
  assert (forall c0, c0 ∈ sameTiles g val x y -> is_Some (cell g c0)) as Hex.
  { intros c0 H0. exists val. eapply sameTiles_exist; eassumption. }
  rewrite cell_put by assumption. rewrite !cell_clear by exact Hex.
  destruct (decide (c = (x, y))) as [->|Hne].
  - rewrite decide_True by (apply elem_of_sameTiles; auto).
    rewrite Hc. reflexivity.
  - destruct (decide (c ∈ sameTiles g val x y)) as [Hin|]; [|reflexivity].
    rewrite (sameTiles_exist _ _ _ _ _ Hc Hin). reflexivity.
Qed.

Lemma wf_collapse (g : Grid) (val x y : Z) :
  wf_grid g = true -> wf_grid (collapse g val x y) = true.
Proof. intros Hg. apply wf_put, wf_clear, Hg. Qed.

(** The body of the loops, on a cell that holds a number. *)
Lemma scanCell_eq (g : Grid) (x y val : Z) (merged : bool) :
  cell g (x, y) = Some val ->
  scanCell x y merged g =
  if has_group g (x, y) then (collapse g val x y, Ok true)
  else (g, Ok merged).
Proof.
  intros Hc. unfold has_group. rewrite Hc. cbn [fst snd].
  pose proof Hc as (row & Hrow & Hv)%cell_Some. cbn [fst snd] in *.
  unfold scanCell, bind, get, get_grid. rewrite Hrow, Hv.
  destruct (val =? 0); [reflexivity|]. cbn [negb andb].
  destruct (3 <=? length (sameTiles g val x y))%nat; [|reflexivity].
  rewrite forEach_clear.
  2:{ intros c0 H0. exists val. eapply sameTiles_exist; eassumption. }
  assert (is_Some (cell (clear g (sameTiles g val x y)) (x, y))) as [w Hw].
  { rewrite cell_clear.
    2:{ intros c0 H0. exists val. eapply sameTiles_exist; eassumption. }
    rewrite Hc. destruct (decide _); eexists; reflexivity. }
  rewrite (set_existing _ _ _ _ _ Hw). reflexivity.
Qed.

(** *** Counting occupied cells *)

Lemma elem_of_indices (i : Z) : i ∈ indices <-> 0 <= i < gridSize.
Proof. unfold indices. rewrite elem_of_seqZ. lia. Qed.

Lemma elem_of_cells (c : coord) : c ∈ cells <-> on_board c.
Proof.
  unfold cells, on_board. rewrite list_elem_of_bind. split.
  - intros (y & (x & Hc & Hx)%list_elem_of_bind & Hy).
    apply list_elem_of_singleton in Hc as ->. simpl.
    apply elem_of_indices in Hx, Hy. auto.
  - intros [Hx Hy]. exists (snd c). rewrite list_elem_of_bind. split.
    + exists (fst c). rewrite list_elem_of_singleton, elem_of_indices.
      destruct c; auto.
    + apply elem_of_indices, Hy.
Qed.

Lemma NoDup_cells : NoDup cells.
Proof. apply (bool_decide_unpack (NoDup cells)). vm_compute. exact I. Qed.

Section Counting.
Context {A : Type} (P Q : A -> Prop).
Context `{!forall a, Decision (P a), !forall a, Decision (Q a)}.

Lemma count_le (l : list A) :
  (forall a, a ∈ l -> Q a -> P a) ->
  (length (filter Q l) <= length (filter P l))%nat.
Proof.
  induction l as [|a l IH]; intros Hmono; [reflexivity|].
  assert (length (filter Q l) <= length (filter P l))%nat as IH'.
  { apply IH. intros b Hb. apply Hmono. right. exact Hb. }
  rewrite !filter_cons.
  destruct (decide (Q a)) as [Hq|]; destruct (decide (P a)) as [|Hp];
    simpl; try lia.
  exfalso. apply Hp, Hmono; [left | exact Hq].
Qed.

Lemma count_drop1 (l : list A) (a1 : A) :
  (forall a, a ∈ l -> Q a -> P a) ->
  a1 ∈ l -> P a1 -> ~ Q a1 ->
  (length (filter Q l) + 1 <= length (filter P l))%nat.
Proof.
  induction l as [|a l IH]; intros Hmono Hin Hp Hq.
  { apply elem_of_nil in Hin as []. }
  assert (forall b, b ∈ l -> Q b -> P b) as Hmono'.
  { intros b Hb. apply Hmono. right. exact Hb. }
  rewrite !filter_cons.
  apply elem_of_cons in Hin as [<-|Hin].
  - rewrite decide_False by exact Hq. rewrite decide_True by exact Hp.
    pose proof (count_le l Hmono'). simpl. lia.
  - specialize (IH Hmono' Hin Hp Hq).
    destruct (decide (Q a)) as [Hqa|]; destruct (decide (P a)) as [|Hpa];
      simpl; try lia.
    exfalso. apply Hpa, Hmono; [left | exact Hqa].
Qed.

Lemma count_drop2 (l : list A) (a1 a2 : A) :
  (forall a, a ∈ l -> Q a -> P a) ->
  a1 <> a2 ->
  a1 ∈ l -> P a1 -> ~ Q a1 ->
  a2 ∈ l -> P a2 -> ~ Q a2 ->
  (length (filter Q l) + 2 <= length (filter P l))%nat.
Proof.
  induction l as [|a l IH]; intros Hmono Hne Hin1 Hp1 Hq1 Hin2 Hp2 Hq2.
  { apply elem_of_nil in Hin1 as []. }
  assert (forall b, b ∈ l -> Q b -> P b) as Hmono'.
  { intros b Hb. apply Hmono. right. exact Hb. }
  rewrite !filter_cons.
  apply elem_of_cons in Hin1 as [<-|Hin1];
    apply elem_of_cons in Hin2 as [Heq|Hin2].
  - congruence.
  - rewrite decide_False by exact Hq1. rewrite decide_True by exact Hp1.
    pose proof (count_drop1 l a2 Hmono' Hin2 Hp2 Hq2). simpl. lia.
  - subst a. rewrite decide_False by exact Hq2.
    rewrite decide_True by exact Hp2.
    pose proof (count_drop1 l a1 Hmono' Hin1 Hp1 Hq1). simpl. lia.
  - specialize (IH Hmono' Hne Hin1 Hp1 Hq1 Hin2 Hp2 Hq2).
    destruct (decide (Q a)) as [Hqa|]; destruct (decide (P a)) as [|Hpa];
      simpl; try lia.
    exfalso. apply Hpa, Hmono; [left | exact Hqa].
Qed.
End Counting.

Lemma occupied_at_true (g : Grid) (c : coord) :
  occupied_at g c = true <-> exists v, cell g c = Some v /\ v <> 0.
Proof.
  unfold occupied_at. destruct (cell g c) as [v|]; split.
  - intros H%negb_true_iff%Z.eqb_neq. eauto.
  - intros (w & [= <-] & Hw). apply negb_true_iff, Z.eqb_neq, Hw.
  - discriminate.
  - intros (w & [=] & _).
Qed.

Lemma has_group_true (g : Grid) (c : coord) :
  has_group g c = true <->
  exists v, cell g c = Some v /\ v <> 0 /\
            (3 <= length (sameTiles g v (fst c) (snd c)))%nat.
Proof.
  unfold has_group. destruct (cell g c) as [v|]; split.
  - intros [H1%negb_true_iff%Z.eqb_neq H2%Nat.leb_le]%andb_true_iff. eauto.
  - intros (w & [= <-] & Hw & Hlen).
    apply andb_true_iff. split.
    + apply negb_true_iff, Z.eqb_neq, Hw.
    + apply Nat.leb_le, Hlen.
  - discriminate.
  - intros (w & [=] & _).
Qed.

(** A collapse removes at least two occupied cells and fills no empty one. *)
Lemma collapse_occupied (g : Grid) (val x y : Z) :
  wf_grid g = true ->
  cell g (x, y) = Some val -> val <> 0 ->
  (3 <= length (sameTiles g val x y))%nat ->
  (occupied (collapse g val x y) + 2 <= occupied g)%nat.
Proof.
  intros Hg Hc Hval Hlen.
  pose proof (NoDup_sameTiles g val x y) as Hnd.
  pose proof (sameTiles_exist g val x y) as Hex.
  pose proof (cell_collapse g val x y) as Hcol.
  assert ((x, y) ∈ sameTiles g val x y) as Hself.
  { apply elem_of_sameTiles. auto. }
  assert (exists a1 a2 rest, sameTiles g val x y = (x, y) :: a1 :: a2 :: rest)
    as (a1 & a2 & rest & Hsame).
  { unfold sameTiles in *. simpl in Hlen.
    destruct (filter _ _) as [|a1 [|a2 rest]]; simpl in Hlen; try lia.
    eauto. }
  rewrite Hsame in Hnd, Hex, Hself.
  apply NoDup_cons in Hnd as [Hn0 Hnd].
  apply NoDup_cons in Hnd as [Hn1 _].
  assert (a1 <> (x, y) /\ a2 <> (x, y) /\ a1 <> a2) as (Hd1 & Hd2 & Hd3).
  { apply not_elem_of_cons in Hn0 as [? [? _]%not_elem_of_cons].
    apply not_elem_of_cons in Hn1 as [? _]. repeat split; congruence. }
  assert (cell g a1 = Some val) as H1.
  { apply Hex; [exact Hc|]. right. left. }
  assert (cell g a2 = Some val) as H2.
  { apply Hex; [exact Hc|]. right. right. left. }
  unfold occupied.
  apply (count_drop2 _ _ cells a1 a2).
  - intros c _ (v & Hv & Hv0)%occupied_at_true. apply occupied_at_true.
    rewrite Hcol in Hv by exact Hc.
    destruct (decide (c = (x, y))) as [->|]; [eauto|].
    destruct (decide _); [congruence | eauto].
  - exact Hd3.
  - eapply elem_of_cells, wf_cell_on_board; eassumption.
  - apply occupied_at_true. eauto.
  - intros (v & Hv & Hv0)%occupied_at_true.
    rewrite Hcol, decide_False, decide_True in Hv; try assumption.
    + congruence.
    + rewrite Hsame. right. left.
  - eapply elem_of_cells, wf_cell_on_board; eassumption.
  - apply occupied_at_true. eauto.
  - intros (v & Hv & Hv0)%occupied_at_true.
    rewrite Hcol, decide_False, decide_True in Hv; try assumption.
    + congruence.
    + rewrite Hsame. right. right. left.
Qed.

Lemma collapse_keeps_empty (g : Grid) (val x y : Z) (c : coord) :
  cell g (x, y) = Some val -> val <> 0 ->
  cell g c = Some 0 -> cell (collapse g val x y) c = Some 0.
Proof.
  intros Hc Hval H0. rewrite cell_collapse by exact Hc.
  destruct (decide (c = (x, y))) as [->|]; [congruence|].
  destruct (decide _); [reflexivity | exact H0].
Qed.

(** *** One pass *)

Lemma forLoop_sound (Inv : bool -> Grid -> Prop) (Q : Z -> Prop)
    (body : Z -> bool -> M bool) (l : list Z) :
  (forall i m g, i ∈ l -> Inv m g ->
     exists g' m', body i m g = (g', Ok m') /\ Inv m' g' /\
                   (m' = false -> m = false /\ Q i)) ->
  forall m g, Inv m g ->
    exists g' m', forLoop l body m g = (g', Ok m') /\ Inv m' g' /\
                  (m' = false -> m = false /\ forall i, i ∈ l -> Q i).
Proof.
  induction l as [|i l IH]; intros Hbody m g Hinv.
  - exists g, m. repeat split; try assumption.
    intros j []%elem_of_nil.
  - destruct (Hbody i m g) as (g1 & m1 & Hrun & Hinv1 & Hq1);
      [left | exact Hinv |].
    destruct (IH (fun j m' g' Hj => Hbody j m' g' (list_elem_of_further _ _ _ Hj))
                m1 g1 Hinv1) as (g2 & m2 & Hrun2 & Hinv2 & Hq2).
    exists g2, m2. split; [|split; [exact Hinv2|]].
    + cbn [forLoop]. unfold bind. rewrite Hrun. exact Hrun2.
    + intros Hm2. destruct (Hq2 Hm2) as [Hm1 Hall].
      destruct (Hq1 Hm1) as [Hm Hqi]. split; [exact Hm|].
      intros j [->|Hj]%elem_of_cons; auto.
Qed.

Lemma pass_inv_start (g0 : Grid) :
  wf_grid g0 = true -> pass_inv g0 false g0.
Proof. intros Hg. repeat split; auto. Qed.

Lemma pass_inv_occupied (g0 g : Grid) (m : bool) :
  pass_inv g0 m g -> (occupied g <= occupied g0)%nat.
Proof. intros (_ & _ & H & _). exact H. Qed.

Lemma scanCell_sound (g0 : Grid) (x y : Z) (m : bool) (g : Grid) :
  on_board (x, y) -> pass_inv g0 m g ->
  exists g' m', scanCell x y m g = (g', Ok m') /\ pass_inv g0 m' g' /\
                (m' = false -> m = false /\ has_group g0 (x, y) = false).
Proof.
  intros Hb (Hg & Hzero & Hocc & Hm).
  destruct (wf_on_board_cell g (x, y) Hg Hb) as [val Hc].
  rewrite (scanCell_eq _ _ _ _ _ Hc).
  destruct (has_group g (x, y)) eqn:Hgrp.
  - apply has_group_true in Hgrp as (v & Hv & Hv0 & Hlen).
    cbn [fst snd] in Hlen. assert (v = val) as -> by congruence.
    pose proof (collapse_occupied g val x y Hg Hc Hv0 Hlen) as Hdrop.
    exists (collapse g val x y), true. split; [reflexivity|].
    split; [|discriminate].
    split; [apply wf_collapse, Hg|].
    split; [intros c H0; apply collapse_keeps_empty; auto|].
    split; [lia|]. split; [lia|].
    destruct m; [apply Hm|]. subst g. exists (x, y). split; [exact Hb|].
    apply has_group_true. exists val. auto.
  - exists g, m. split; [reflexivity|]. split.
    + repeat split; assumption.
    + intros ->. subst g. auto.
Qed.

Lemma scan_sound (g0 : Grid) :
  wf_grid g0 = true ->
  exists g' m, scan g0 = (g', Ok m) /\ pass_inv g0 m g' /\
               (m = false -> stable g0).
Proof.
  intros Hg. unfold scan.
  destruct (forLoop_sound (pass_inv g0)
              (fun y => forall x, x ∈ indices -> has_group g0 (x, y) = false)
              (fun y m => forLoop indices (fun x m' => scanCell x y m') m)
              indices) with (m := false) (g := g0)
    as (g' & m & Hrun & Hinv & Hq).
  - intros y m g Hy Hinv.
    apply (forLoop_sound (pass_inv g0)
             (fun x => has_group g0 (x, y) = false)); [|exact Hinv].
    intros x m1 g1 Hx Hinv1. apply scanCell_sound; [|exact Hinv1].
    apply elem_of_indices in Hx, Hy. split; assumption.
  - apply pass_inv_start, Hg.
  - exists g', m. split; [exact Hrun|]. split; [exact Hinv|].
    intros Hm [x y] [Hx Hy]. destruct (Hq Hm) as [_ Hall].
    apply Hall; apply elem_of_indices; assumption.
Qed.

(** A pass on a board without a group changes nothing and reports no
    merge. *)
Lemma scan_stable (g : Grid) :
  wf_grid g = true -> stable g -> scan g = (g, Ok false).
Proof.
  intros Hg Hst. destruct (scan_sound g Hg) as (g' & m & Hrun & Hinv & _).
  destruct Hinv as (_ & _ & _ & Hm). destruct m.
  - destruct Hm as (_ & c & Hb & Hgrp). rewrite Hst in Hgrp by exact Hb.
    discriminate.
  - subst g'. exact Hrun.
Qed.

(** *** The cascade *)

Lemma mergeTiles_sound (fuel : nat) (g : Grid) :
  wf_grid g = true -> (occupied g < 2 * fuel)%nat ->
  exists g', mergeTiles fuel g = (g', Ok tt) /\
             wf_grid g' = true /\ stable g' /\
             (occupied g' <= occupied g)%nat /\
             (forall c, cell g c = Some 0 -> cell g' c = Some 0) /\
             (g' = g <-> stable g).
Proof.
  revert g. induction fuel as [|n IH]; intros g Hg Hfuel; [lia|].
  destruct (scan_sound g Hg) as (g1 & m & Hrun & Hinv & Hst).
  cbn [mergeTiles]. unfold bind. rewrite Hrun.
  destruct Hinv as (Hg1 & Hzero & Hocc & Hm). destruct m.
  - destruct Hm as (Hdrop & c & Hb & Hgrp).
    destruct (IH g1 Hg1) as (g' & Hrun' & Hg' & Hst' & Hocc' & Hzero' & _);
      [lia|].
    exists g'. repeat split; auto; try lia.
    + intros ->. lia.
    + intros Hs. rewrite Hs in Hgrp by exact Hb. discriminate.
  - subst g1. exists g. unfold ret. repeat split; auto.
Qed.

(** More fuel does not change the outcome of a cascade that ended. *)
Lemma mergeTiles_fuel_mono (n k : nat) (g g' : Grid) :
  mergeTiles n g = (g', Ok tt) -> mergeTiles (n + k) g = (g', Ok tt).
Proof.
  revert g. induction n as [|n IH]; intros g; [discriminate|].
  cbn [mergeTiles Nat.add]. unfold bind.
  destruct (scan g) as [g1 [[|]|e]]; auto.
Qed.

(** What a cascade that ended has done, whatever fuel it was given. *)
Lemma mergeTiles_partial (fuel : nat) (g g' : Grid) :
  wf_grid g = true -> mergeTiles fuel g = (g', Ok tt) ->
  wf_grid g' = true /\ stable g' /\
  (occupied g' <= occupied g)%nat /\
  (forall c, cell g c = Some 0 -> cell g' c = Some 0) /\
  (g' = g <-> stable g).
Proof.
  intros Hg Hrun.
  apply (mergeTiles_fuel_mono _ (S (occupied g))) in Hrun.
  destruct (mergeTiles_sound (fuel + S (occupied g)) g Hg) as (g1 & Hrun1 & H);
    [lia|].
  assert (g1 = g') as -> by congruence. exact H.
Qed.

(** The outcome does not depend on the fuel, once there is enough. *)
Lemma mergeTiles_fuel_irrelevant (n n' : nat) (g : Grid) :
  wf_grid g = true -> (occupied g < 2 * n)%nat -> (occupied g < 2 * n')%nat ->
  mergeTiles n g = mergeTiles n' g.
Proof.
  intros Hg Hn Hn'.
  destruct (mergeTiles_sound n g Hg Hn) as (g1 & Hrun1 & _).
  destruct (mergeTiles_sound n' g Hg Hn') as (g2 & Hrun2 & _).
  pose proof (mergeTiles_fuel_mono _ n' _ _ Hrun1) as H1.
  pose proof (mergeTiles_fuel_mono _ n _ _ Hrun2) as H2.
  rewrite (Nat.add_comm n' n) in H2. congruence.
Qed.

(** *** Boards without a group *)

Lemma three_members {A} (l : list A) (a b c : A) :
  NoDup l -> a ∈ l -> b ∈ l -> c ∈ l -> a <> b -> a <> c -> b <> c ->
  (3 <= length l)%nat.
Proof.
  intros Hnd Ha Hb Hc Hab Hac Hbc.
  change 3%nat with (length [a; b; c]).
  apply submseteq_length, NoDup_submseteq.
  - repeat (apply NoDup_cons; split);
      rewrite ?elem_of_cons, ?elem_of_nil; try tauto. apply NoDup_nil. exact I.
  - intros d. rewrite !elem_of_cons, elem_of_nil.
    intros [->|[->|[->|[]]]]; assumption.
Qed.

Lemma adjacent_sym (a b : coord) : adjacent a b -> adjacent b a.
Proof. unfold adjacent. lia. Qed.

Lemma adjacent_ne (a b : coord) : adjacent a b -> a <> b.
Proof. intros H ->. exact (not_adjacent_self _ H). Qed.

(** On a board without a group no cell has two equal occupied
    neighbours. *)
Lemma stable_no_centre (g : Grid) (v : Z) (a b c : coord) :
  wf_grid g = true -> stable g -> v <> 0 ->
  cell g a = Some v -> cell g b = Some v -> cell g c = Some v ->
  adjacent b a -> adjacent b c -> a = c.
Proof.
  intros Hg Hst Hv Ha Hb Hc Hba Hbc.
  destruct (decide (a = c)) as [|Hne]; [assumption|exfalso].
  assert (has_group g b = true) as Hgrp.
  { apply has_group_true. exists v. split; [exact Hb|]. split; [exact Hv|].
    apply (three_members _ b a c).
    - apply NoDup_sameTiles.
    - apply elem_of_sameTiles. left. destruct b; reflexivity.
    - apply elem_of_sameTiles. right. destruct b; auto.
    - apply elem_of_sameTiles. right. destruct b; auto.
    - apply adjacent_ne, Hba.
    - apply adjacent_ne, Hbc.
    - exact Hne. }
  rewrite Hst in Hgrp; [discriminate|].
  eapply wf_cell_on_board; eassumption.
Qed.

Lemma connected_cell (g : Grid) (v : Z) (a b : coord) :
  connected g v a b -> cell g a = Some v /\ cell g b = Some v.
Proof. induction 1; intuition. Qed.

(** On a board without a group a chain of equal occupied cells never
    leaves the first cell and its neighbours. *)
Lemma stable_connected_near (g : Grid) (v : Z) (a b : coord) :
  wf_grid g = true -> stable g -> v <> 0 ->
  connected g v a b -> b = a \/ adjacent a b.
Proof.
  intros Hg Hst Hv. induction 1 as [a Ha|a b c Hab IH Hbc Hc].
  - left. reflexivity.
  - destruct (connected_cell _ _ _ _ Hab) as [Ha Hb].
    destruct IH as [Heq|Hadj]; [subst b; right; exact Hbc|].
    left. symmetry.
    apply (stable_no_centre g v a b c); auto using adjacent_sym.
Qed.

(** So no chain of equal occupied cells has three members. *)
Lemma stable_no_component (g : Grid) (v : Z) (a b c : coord) :
  wf_grid g = true -> stable g -> v <> 0 ->
  connected g v a b -> connected g v a c ->
  a <> b -> a <> c -> b <> c -> False.
Proof.
  intros Hg Hst Hv Hab Hac Hnab Hnac Hnbc.
  destruct (connected_cell _ _ _ _ Hab) as [Ha Hb].
  destruct (connected_cell _ _ _ _ Hac) as [_ Hc].
  destruct (stable_connected_near g v a b Hg Hst Hv Hab) as [->|Hadjb];
    [congruence|].
  destruct (stable_connected_near g v a c Hg Hst Hv Hac) as [->|Hadjc];
    [congruence|].
  apply Hnbc. apply (stable_no_centre g v b a c); auto.
Qed.

Lemma stable_check (g : Grid) :
  forallb (fun c => negb (has_group g c)) cells = true -> stable g.
Proof.
  intros H c Hc. rewrite forallb_forall in H.
  apply negb_true_iff, H, list_elem_of_In, elem_of_cells, Hc.
Qed.

(** *** Clicks *)

Lemma handleClick_refused (below_08 : bool) (fuel : nat) (x y : Z) (g : Grid) :
  cell g (x, y) <> Some 0 ->
  handleClick below_08 fuel x y g =
  (g, match js_index g y with
      | Some _ => Ok js_undefined
      | None => Err TypeError
      end).
Proof.
  unfold cell, handleClick, bind, get. cbn [fst snd].
  destruct (js_index g y) as [row|]; [|reflexivity].
  destruct (js_index row x) as [[| |]|]; try reflexivity. congruence.
Qed.

Lemma handleClick_accepted (below_08 : bool) (fuel : nat) (x y : Z) (g : Grid) :
  cell g (x, y) = Some 0 ->
  handleClick below_08 fuel x y g =
  match mergeTiles fuel (put g (x, y) (getRandomTile below_08)) with
  | (g', Ok _) => (g', Ok js_undefined)
  | (g', Err e) => (g', Err e)
  end.
Proof.
  intros Hc. pose proof Hc as (row & Hrow & Hv)%cell_Some. cbn [fst snd] in *.
  unfold handleClick, bind, get. rewrite Hrow, Hv.
  rewrite (set_existing _ _ _ _ _ Hc).
  destruct (mergeTiles fuel _) as [g' [[]|e]]; reflexivity.
Qed.

Lemma occupied_put (g : Grid) (c : coord) (v : Z) :
  0 <= fst c -> 0 <= snd c ->
  (occupied (put g c v) <= occupied g + 1)%nat.
Proof.
  intros Hx Hy. unfold occupied.
  transitivity (length (filter (fun c' => occupied_at g c' = true \/ c' = c) cells)).
  - apply count_le. intros c' _ (w & Hw & Hw0)%occupied_at_true.
    rewrite cell_put in Hw by assumption.
    destruct (decide (c' = c)); [right; assumption|left].
    apply occupied_at_true. eauto.
  - pose proof NoDup_cells as Hnd. induction cells as [|a l IH];
      [simpl; lia|].
    apply NoDup_cons in Hnd as [Ha Hnd]. rewrite !filter_cons.
    destruct (decide (occupied_at g a = true)) as [Hoa|Hoa].
    + rewrite decide_True by (left; exact Hoa). simpl.
      specialize (IH Hnd). lia.
    + destruct (decide (a = c)) as [->|Hac].
      * rewrite decide_True by (right; reflexivity). simpl.
        enough (length (filter (λ c' : coord, occupied_at g c' = true ∨ c' = c) l)
                <= length (filter (λ c' : coord, occupied_at g c' = true) l))%nat
          by lia.
        apply count_le. intros c' Hc' [?| ->]; [assumption|contradiction].
      * rewrite decide_False by tauto. apply IH, Hnd.
Qed.

(** Every board of a game is a board without a group. *)
Lemma reachable_stable (g : Grid) :
  reachable g -> wf_grid g = true /\ stable g.
Proof.
  induction 1 as [|g below_08 fuel x y g' v Hr [Hg Hst] Hclick].
  - split; [reflexivity|]. apply stable_check. vm_compute. reflexivity.
  - destruct (decide (cell g (x, y) = Some 0)) as [Hc|Hc].
    + rewrite (handleClick_accepted _ _ _ _ _ Hc) in Hclick.
      destruct (mergeTiles fuel _) as [g1 [[]|e]] eqn:Hrun; [|discriminate].
      injection Hclick as <- _.
      apply mergeTiles_partial in Hrun as (Hg' & Hst' & _);
        [auto | apply wf_put, Hg].
    + rewrite (handleClick_refused _ _ _ _ _ Hc) in Hclick.
      injection Hclick as <- _. auto.
Qed.

Lemma two_members {A} (l : list A) (a b : A) :
  NoDup l -> (forall c, c ∈ l -> c = a \/ c = b) -> (length l <= 2)%nat.
Proof.
  intros Hnd Hl. change 2%nat with (length [a; b]).
  apply submseteq_length, NoDup_submseteq; [exact Hnd|].
  intros c [->| ->]%Hl; [left | right; left].
Qed.

Lemma scanCell_small_group (g : Grid) (x y val : Z) (merged : bool) :
  cell g (x, y) = Some val ->
  (length (sameTiles g val x y) < 3)%nat ->
  scanCell x y merged g = (g, Ok merged).
Proof.
  intros Hc Hlen. rewrite (scanCell_eq _ _ _ _ _ Hc).
  destruct (has_group g (x, y)) eqn:Hgrp; [|reflexivity].
  apply has_group_true in Hgrp as (v & Hv & _ & Hlen').
  cbn [fst snd] in Hlen'. assert (v = val) as -> by congruence. lia.
Qed.

Lemma scanCell_collapse (g : Grid) (x y val : Z) (merged : bool) :
  cell g (x, y) = Some val -> val <> 0 ->
  (3 <= length (sameTiles g val x y))%nat ->
  scanCell x y merged g = (collapse g val x y, Ok true).
Proof.
  intros Hc Hv Hlen. rewrite (scanCell_eq _ _ _ _ _ Hc).
  replace (has_group g (x, y)) with true; [reflexivity|].
  symmetry. apply has_group_true. exists val. auto.
Qed.

(** *** The pass on the example boards *)

Example pair_does_not_merge :
  mergeTiles 1 pair_board = (pair_board, Ok tt).
Proof. reflexivity. Qed.

Example corner_merges :
  mergeTiles 2 corner_board =
  ([[2; 0; 0; 0; 0; 0]; empty_row; empty_row; empty_row; empty_row; empty_row],
   Ok tt).
Proof. reflexivity. Qed.

Example corner_needs_two_passes :
  mergeTiles 1 corner_board =
  ([[2; 0; 0; 0; 0; 0]; empty_row; empty_row; empty_row; empty_row; empty_row],
   Err OutOfFuel).
Proof. reflexivity. Qed.

Example first_click_places_a_tile :
  handleClick true 1 2 3 initial_grid =
  ([empty_row; empty_row; empty_row; [0; 0; 1; 0; 0; 0]; empty_row; empty_row],
   Ok js_undefined).
Proof. reflexivity. Qed.

(** *** Properties of the merge pass *)

Lemma reachable_clicks (l : list (bool * coord)) (g g' : Grid) :
  reachable g -> clicks l g = Some g' -> reachable g'.
Proof.
  revert g. induction l as [|[below_08 c] l IH]; intros g Hr Hrun.
  - injection Hrun as <-. exact Hr.
  - cbn [clicks] in Hrun.
    destruct (handleClick below_08 3 (fst c) (snd c) g) as [g1 [v|e]] eqn:Hc;
      [|discriminate].
    apply (IH g1); [|exact Hrun].
    exact (reachable_click g below_08 3 (fst c) (snd c) g1 v Hr Hc).
Qed.

Lemma two_equal_neighbours (g : Grid) (x y val : Z) (a b : coord) :
  a <> b -> adjacent (x, y) a -> adjacent (x, y) b ->
  cell g a = Some val -> cell g b = Some val ->
  (3 <= length (sameTiles g val x y))%nat.
Proof.
  intros Hne Ha Hb Hva Hvb. apply (three_members _ (x, y) a b).
  - apply NoDup_sameTiles.
  - apply elem_of_sameTiles. auto.
  - apply elem_of_sameTiles. auto.
  - apply elem_of_sameTiles. auto.
  - apply adjacent_ne, Ha.
  - apply adjacent_ne, Hb.
  - exact Hne.
Qed.

Lemma large_group_neighbours (g : Grid) (x y val : Z) :
  (3 <= length (sameTiles g val x y))%nat ->
  exists a b, a <> b /\ adjacent (x, y) a /\ adjacent (x, y) b /\
              cell g a = Some val /\ cell g b = Some val.
Proof.
  intros Hlen. pose proof (NoDup_sameTiles g val x y) as Hnd.
  pose proof (fun c => proj1 (elem_of_sameTiles g val x y c)) as Hmem.
  unfold sameTiles in *.
  destruct (filter _ _) as [|a [|b rest]]; cbn [length] in Hlen; try lia.
  apply NoDup_cons in Hnd as [Hn0 Hnd].
  apply NoDup_cons in Hnd as [Hn1 _].
  apply not_elem_of_cons in Hn0 as [H0a [H0b _]%not_elem_of_cons].
  apply not_elem_of_cons in Hn1 as [Hab _].
  exists a, b. split; [exact Hab|].
  destruct (Hmem a) as [?|[? ?]]; [right; left | congruence |].
  destruct (Hmem b) as [?|[? ?]]; [right; right; left | congruence |].
  auto.
Qed.

(** A board has no group of three or more exactly when no cell of it has
    two equal occupied neighbours. *)
Lemma stable_iff_no_centre (g : Grid) :
  wf_grid g = true ->
  stable g <->
  (forall v a b c, v <> 0 ->
     cell g a = Some v -> cell g b = Some v -> cell g c = Some v ->
     adjacent b a -> adjacent b c -> a = c).
Proof.
  intros Hg. split.
  - intros Hst v a b c Hv Ha Hb Hc. apply (stable_no_centre g v); assumption.
  - intros Hno [x y] Hb. destruct (has_group g (x, y)) eqn:Hgrp; [|reflexivity].
    apply has_group_true in Hgrp as (v & Hv & Hv0 & Hlen). cbn [fst snd] in Hlen.
    destruct (large_group_neighbours g x y v Hlen)
      as (a & b & Hab & Haa & Hab' & Hva & Hvb).
    exfalso. apply Hab. apply (Hno v a (x, y) b); assumption.
Qed.

(** C1, as the code has it.  The test is made when a cell is scanned, on
    the cell and its direct neighbours as they are at that moment.  If two
    different neighbours hold the value of the cell, the scan merges: it
    reports a merge, changes the grid, sets every neighbour holding that
    value to 0 and touches no other cell but the scanned one.  If at most
    one neighbour holds it, the scan changes nothing; so two adjacent equal
    cells with no third equal cell next to either of them are both left
    alone.  The whole cascade returns the board unchanged exactly when no
    cell of it has two equal occupied neighbours. *)
Theorem merge_iff_group_of_three (g : Grid) (x y val : Z) (merged : bool) :
  wf_grid g = true -> cell g (x, y) = Some val -> val <> 0 ->
  ((exists a b, a <> b /\ adjacent (x, y) a /\ adjacent (x, y) b /\
                cell g a = Some val /\ cell g b = Some val) ->
   exists g', scanCell x y merged g = (g', Ok true) /\ g' <> g /\
     (forall c, adjacent (x, y) c -> cell g c = Some val ->
                cell g' c = Some 0) /\
     (forall c, c <> (x, y) ->
                ~ (adjacent (x, y) c /\ cell g c = Some val) ->
                cell g' c = cell g c)) /\
  ((forall a b, adjacent (x, y) a -> adjacent (x, y) b ->
                cell g a = Some val -> cell g b = Some val -> a = b) ->
   scanCell x y merged g = (g, Ok merged)) /\
  (forall b, adjacent (x, y) b -> cell g b = Some val ->
     (forall c, cell g c = Some val -> adjacent (x, y) c \/ adjacent b c ->
                c = (x, y) \/ c = b) ->
     scanCell x y merged g = (g, Ok merged) /\
     scanCell (fst b) (snd b) merged g = (g, Ok merged)) /\
  (exists g', mergeTiles (S (occupied g)) g = (g', Ok tt) /\
     (g' = g <->
      forall v a b c, v <> 0 ->
        cell g a = Some v -> cell g b = Some v -> cell g c = Some v ->
        adjacent b a -> adjacent b c -> a = c)).
Proof.
  intros Hg Hc Hv. split; [|split; [|split]].
  - intros (a & b & Hab & Ha & Hb & Hva & Hvb).
    pose proof (two_equal_neighbours g x y val a b Hab Ha Hb Hva Hvb) as Hlen.
    pose proof (cell_collapse g val x y) as Hcol.
    exists (collapse g val x y).
    split; [apply (scanCell_collapse g x y val); assumption|].
    assert (forall c, adjacent (x, y) c -> cell g c = Some val ->
                      cell (collapse g val x y) c = Some 0) as Hclr.
    { intros c Hadj Hvc. rewrite Hcol by exact Hc.
      rewrite decide_False by (symmetry; apply adjacent_ne, Hadj).
      rewrite decide_True; [reflexivity|]. apply elem_of_sameTiles. auto. }
    split; [|split; [exact Hclr|]].
    + intros Heq. specialize (Hclr a Ha Hva). rewrite Heq, Hva in Hclr.
      injection Hclr as ->. contradiction.
    + intros c Hne Hout. rewrite Hcol by exact Hc.
      rewrite decide_False by exact Hne. rewrite decide_False; [reflexivity|].
      intros [?|?]%elem_of_sameTiles; [contradiction | exact (Hout H)].
  - intros Hone. apply (scanCell_small_group g x y val); [exact Hc|].
    destruct (Nat.lt_ge_cases (length (sameTiles g val x y)) 3) as [|Hlen];
      [assumption|exfalso].
    destruct (large_group_neighbours g x y val Hlen)
      as (a & b & Hab & Ha & Hb & Hva & Hvb).
    apply Hab, Hone; assumption.
  - intros b Hadj Hb Hthird. split.
    + apply (scanCell_small_group g x y val); [exact Hc|].
      enough (length (sameTiles g val x y) <= 2)%nat by lia.
      apply (two_members _ (x, y) b); [apply NoDup_sameTiles|].
      intros c [->|[Hac Hcv]]%elem_of_sameTiles; auto.
    + destruct b as [bx by_]. cbn [fst snd].
      apply (scanCell_small_group g bx by_ val); [exact Hb|].
      enough (length (sameTiles g val bx by_) <= 2)%nat by lia.
      apply (two_members _ (x, y) (bx, by_)); [apply NoDup_sameTiles|].
      intros c [->|[Hac Hcv]]%elem_of_sameTiles; auto.
  - destruct (mergeTiles_sound (S (occupied g)) g Hg)
      as (g' & Hrun & _ & _ & _ & _ & Hiff); [lia|].
    exists g'. split; [exact Hrun|].
    rewrite Hiff. apply stable_iff_no_centre, Hg.
Qed.

Lemma merge_iff_group_of_three_witness :
  wf_grid corner_board = true /\ cell corner_board (0, 0) = Some 1 /\
  1 <> 0 /\
  exists g', scanCell 0 0 false corner_board = (g', Ok true) /\
             g' <> corner_board /\ cell g' (1, 0) = Some 0 /\
             cell g' (0, 1) = Some 0.
Proof.
  assert (1 <> 0) as H10 by discriminate.
  destruct (merge_iff_group_of_three corner_board 0 0 1 false eq_refl eq_refl H10)
    as (Hmerge & _).
  destruct Hmerge as (g' & Hrun & Hne & Hclr & _).
  { exists (1, 0), (0, 1). repeat split; discriminate || reflexivity. }
  repeat split; try assumption. exists g'.
  split; [exact Hrun|]. split; [exact Hne|].
  split; apply Hclr; reflexivity.
Defined.

(** C1 fails as stated for the pass as a whole.  After the third tile 1 is
    put next to a pair, the group found around (0, 0) has two members, and
    yet the pass sets (0, 0) to 0, when the group around (1, 0) collapses.
    After a tile 1 is put between two pairs, the group found around (2, 0)
    has three members, and yet it never collapses: the collapse around
    (1, 0) comes first and takes (2, 0) away, and (3, 0) keeps its tile. *)
Lemma small_group_is_cleared_by_a_neighbour :
  ~ (forall g x y val g',
       wf_grid g = true -> cell g (x, y) = Some val -> val <> 0 ->
       (length (sameTiles g val x y) < 3)%nat ->
       mergeTiles 2 g = (g', Ok tt) -> cell g' (x, y) = Some val) /\
  reachable pair_board /\
  sameTiles (put pair_board (2, 0) 1) 1 0 0 = [(0, 0); (1, 0)] /\
  handleClick true 2 2 0 pair_board =
  ([[0; 2; 0; 0; 0; 0]; empty_row; empty_row; empty_row; empty_row; empty_row],
   Ok js_undefined) /\
  reachable two_pairs_board /\
  sameTiles (put two_pairs_board (2, 0) 1) 1 2 0 = [(2, 0); (3, 0); (1, 0)] /\
  handleClick true 2 2 0 two_pairs_board =
  ([[0; 2; 0; 1; 1; 0]; empty_row; empty_row; empty_row; empty_row; empty_row],
   Ok js_undefined).
Proof.
  split; [|split; [|split; [reflexivity|split; [reflexivity|split;
    [|split; reflexivity]]]]].
  - intros H.
    specialize (H (put pair_board (2, 0) 1) 0 0 1 _ eq_refl eq_refl
                  ltac:(discriminate) ltac:(apply Nat.ltb_lt; reflexivity) eq_refl).
    discriminate H.
  - apply (reachable_clicks [(true, (0, 0)); (true, (1, 0))] initial_grid);
      [apply reachable_initial | reflexivity].
  - apply (reachable_clicks
             [(true, (0, 0)); (true, (1, 0)); (true, (3, 0)); (true, (4, 0))]
             initial_grid); [apply reachable_initial | reflexivity].
Qed.

(** C2, as the code has it.  The group found around a cell is the cell
    together with those of its four orthogonal neighbours that hold the same
    value, and nothing else: at most five coordinates. *)
Theorem group_is_cell_and_equal_neighbours
    (g : Grid) (val x y : Z) (c : coord) :
  (c ∈ sameTiles g val x y <->
   c = (x, y) \/ (adjacent (x, y) c /\ cell g c = Some val)) /\
  NoDup (sameTiles g val x y) /\
  (length (sameTiles g val x y) <= 5)%nat.
Proof.
  split; [apply elem_of_sameTiles|]. split; [apply NoDup_sameTiles|].
  unfold sameTiles. cbn [length].
  pose proof (length_filter (fun c => same_at g val c = true)
                (shift x y <$> offsets)) as Hlen.
  rewrite length_fmap in Hlen. unfold offsets in Hlen at 2.
  cbn [length] in Hlen. lia.
Qed.

(** C2 fails as stated: on the line of four tiles the cell (3, 0) is reached
    from (1, 0) by a chain of equal neighbours, yet it is not in the group
    found around (1, 0), and the cascade leaves it on the board. *)
Lemma group_is_not_the_component :
  ~ (forall g x y val c,
       wf_grid g = true -> cell g (x, y) = Some val -> val <> 0 ->
       connected g val (x, y) c -> c ∈ sameTiles g val x y) /\
  connected line_board 1 (1, 0) (3, 0) /\
  sameTiles line_board 1 1 0 = [(1, 0); (2, 0); (0, 0)] /\
  mergeTiles 2 line_board =
  ([[0; 2; 0; 1; 0; 0]; empty_row; empty_row; empty_row; empty_row; empty_row],
   Ok tt).
Proof.
  assert (connected line_board 1 (1, 0) (3, 0)) as Hconn.
  { apply (connected_step _ _ _ (2, 0)); [|reflexivity|reflexivity].
    apply (connected_step _ _ _ (1, 0)); [|reflexivity|reflexivity].
    apply connected_refl. reflexivity. }
  split; [|split; [exact Hconn|split; reflexivity]].
  intros H.
  specialize (H line_board 1 0 1 (3, 0) eq_refl eq_refl ltac:(discriminate) Hconn).
  apply elem_of_sameTiles in H as [H|[H _]]; [discriminate|].
  unfold adjacent in H. cbn in H. discriminate.
Qed.

(** C3.  The cascade terminates.  Every collapse removes at least two
    occupied cells, so with one unit of fuel per two occupied cells (and one
    more) [mergeTiles] returns, with the same board whatever the fuel.  The
    board it returns is a fixed point of the pass, no cell of it has a group
    of three or more, and no chain of adjacent equal occupied cells on it has
    three distinct members. *)
Theorem merge_cascade_terminates (g : Grid) :
  wf_grid g = true ->
  (forall x y val merged,
     cell g (x, y) = Some val -> val <> 0 ->
     (3 <= length (sameTiles g val x y))%nat ->
     exists g', scanCell x y merged g = (g', Ok true) /\
                (occupied g' + 2 <= occupied g)%nat) /\
  exists g',
    (forall fuel, (occupied g < 2 * fuel)%nat ->
                  mergeTiles fuel g = (g', Ok tt)) /\
    (occupied g' <= occupied g)%nat /\
    scan g' = (g', Ok false) /\
    stable g' /\
    (forall v a b c,
       v <> 0 -> connected g' v a b -> connected g' v a c ->
       a <> b -> a <> c -> b <> c -> False).
Proof.
  intros Hg. split.
  - intros x y val merged Hc Hv Hlen. exists (collapse g val x y). split.
    + apply (scanCell_collapse g x y val); assumption.
    + apply collapse_occupied; assumption.
  - destruct (mergeTiles_sound (S (occupied g)) g Hg)
      as (g' & Hrun & Hg' & Hst & Hocc & _); [lia|].
    exists g'. split; [|split; [exact Hocc|split; [|split; [exact Hst|]]]].
    + intros fuel Hfuel. rewrite <- Hrun.
      apply mergeTiles_fuel_irrelevant; [exact Hg | exact Hfuel | lia].
    + apply scan_stable; assumption.
    + intros v a b c Hv. apply stable_no_component; assumption.
Qed.

Lemma merge_cascade_terminates_witness :
  wf_grid corner_board = true /\
  exists g',
    (forall fuel, (occupied corner_board < 2 * fuel)%nat ->
                  mergeTiles fuel corner_board = (g', Ok tt)) /\
    scan g' = (g', Ok false) /\ stable g'.
Proof.
  split; [reflexivity|].
  destruct (merge_cascade_terminates corner_board eq_refl)
    as (_ & g' & Hrun & _ & Hfix & Hst & _).
  exists g'. auto.
Defined.

(** C5, as the code has it.  A click on a cell that does not hold 0 (an
    occupied cell, or a column outside the board) returns [undefined] and
    leaves the grid as it was; a click on a row outside the board raises a
    [TypeError], with the grid as it was.  No reason is returned. *)
Theorem refused_click_changes_nothing
    (below_08 : bool) (fuel : nat) (x y : Z) (g : Grid) :
  cell g (x, y) <> Some 0 ->
  handleClick below_08 fuel x y g =
  (g, match js_index g y with
      | Some _ => Ok js_undefined
      | None => Err TypeError
      end).
Proof.
  intros Hc. unfold handleClick, bind, get.
  destruct (js_index g y) as [row|] eqn:Hrow; [|reflexivity].
  destruct (js_index row x) as [v|] eqn:Hv; [|reflexivity].
  assert (v <> 0) as Hv0.
  { intros ->. apply Hc, cell_Some. exists row. auto. }
  destruct v; [contradiction | reflexivity | reflexivity].
Qed.

Lemma refused_click_changes_nothing_witness :
  cell pair_board (0, 0) <> Some 0 /\
  handleClick true 1 0 0 pair_board = (pair_board, Ok js_undefined).
Proof.
  assert (cell pair_board (0, 0) <> Some 0) as H by discriminate.
  split; [exact H|].
  exact (refused_click_changes_nothing true 1 0 0 pair_board H).
Defined.

(** C5 fails as stated: a click on the occupied cell (0, 0) returns
    [undefined], which carries no reason, and a click on a row outside the
    board does not return at all. *)
Lemma refused_click_gives_no_reason :
  ~ (forall below_08 fuel x y g,
       wf_grid g = true -> cell g (x, y) <> Some 0 ->
       exists reason,
         handleClick below_08 fuel x y g = (g, Ok (js_string reason))) /\
  handleClick true 1 0 0 pair_board = (pair_board, Ok js_undefined) /\
  handleClick true 1 0 6 pair_board = (pair_board, Err TypeError).
Proof.
  split; [|split; reflexivity].
  intros H.
  destruct (H true 1%nat 0 0 pair_board eq_refl ltac:(discriminate))
    as [reason Hr].
  discriminate Hr.
Qed.

(** C6, as the code has it.  On a board of a game, when a tile has been
    put on an empty cell, every cell with two equal occupied neighbours
    forms with them a group that contains the placement coordinate: no
    group of three is waiting anywhere else.  The merge resolution itself
    takes no coordinate and scans the whole board; it returns within 19
    passes and leaves a board of the game, with no group of three or more
    anywhere. *)
Theorem click_resolves_the_whole_board
    (below_08 : bool) (x y : Z) (g : Grid) :
  reachable g -> cell g (x, y) = Some 0 ->
  (forall v a b c,
     v <> 0 -> a <> c -> adjacent b a -> adjacent b c ->
     cell (put g (x, y) (getRandomTile below_08)) a = Some v ->
     cell (put g (x, y) (getRandomTile below_08)) b = Some v ->
     cell (put g (x, y) (getRandomTile below_08)) c = Some v ->
     (x, y) = a \/ (x, y) = b \/ (x, y) = c) /\
  exists g', handleClick below_08 19 x y g = (g', Ok js_undefined) /\
             reachable g' /\ stable g'.
Proof.
  intros Hr Hc. destruct (reachable_stable g Hr) as [Hg Hst].
  destruct (cell_nonneg _ _ _ Hc) as [Hx Hy]. cbn [fst snd] in Hx, Hy.
  split.
  - intros v a b c Hv Hac Hba Hbc Ha Hb Hcc.
    destruct (decide ((x, y) = a)) as [|Hna]; [auto|].
    destruct (decide ((x, y) = b)) as [|Hnb]; [auto|].
    destruct (decide ((x, y) = c)) as [|Hnc]; [auto|].
    exfalso. apply Hac.
    rewrite cell_put in Ha, Hb, Hcc by assumption.
    rewrite decide_False in Ha by congruence.
    rewrite decide_False in Hb by congruence.
    rewrite decide_False in Hcc by congruence.
    apply (stable_no_centre g v a b c); assumption.
  - pose proof (handleClick_accepted below_08 19 x y g Hc) as Hacc.
    pose proof (occupied_put g (x, y) (getRandomTile below_08) Hx Hy) as Hle.
    assert (occupied g <= 36)%nat as H36.
    { unfold occupied. etransitivity; [apply length_filter|].
      vm_compute. reflexivity. }
    destruct (mergeTiles_sound 19 (put g (x, y) (getRandomTile below_08)))
      as (g' & Hm & _); [apply wf_put, Hg | lia |].
    rewrite Hm in Hacc. exists g'. split; [exact Hacc|].
    assert (reachable g') as Hr'.
    { exact (reachable_click g below_08 19 x y g' js_undefined Hr Hacc). }
    split; [exact Hr' | apply reachable_stable, Hr'].
Qed.

Lemma click_resolves_the_whole_board_witness :
  reachable two_pairs_board /\ cell two_pairs_board (2, 0) = Some 0 /\
  ((2, 0) = (1, 0) \/ (2, 0) = (2, 0) \/ (2, 0) = (3, 0)) /\
  exists g', handleClick true 19 2 0 two_pairs_board = (g', Ok js_undefined) /\
             reachable g' /\ stable g'.
Proof.
  assert (reachable two_pairs_board) as Hr.
  { apply (reachable_clicks
             [(true, (0, 0)); (true, (1, 0)); (true, (3, 0)); (true, (4, 0))]
             initial_grid); [apply reachable_initial | reflexivity]. }
  destruct (click_resolves_the_whole_board true 2 0 two_pairs_board Hr eq_refl)
    as [Hgroups Hrun].
  split; [exact Hr|]. split; [reflexivity|]. split; [|exact Hrun].
  apply (Hgroups 1 (1, 0) (2, 0) (3, 0)); reflexivity || discriminate.
Defined.

(** C6 fails as stated: the cascade of a click goes on to groups that do
    not touch the placement coordinate.  On this board of a game a tile 1
    is put at (1, 2).  The first pass collapses the tiles 1 around (1, 1)
    and then the tiles 2 around (2, 1); the second pass collapses the group
    of tiles 3 found around (2, 0), and no member of that group is the
    placement coordinate or one of its neighbours. *)
Lemma click_collapses_a_far_group :
  reachable stairs_board /\
  cell stairs_board (1, 2) = Some 0 /\
  scan (put stairs_board (1, 2) 1) =
  ([[0; 0; 3; 3; 0; 0]; [0; 0; 3; 0; 0; 0];
    empty_row; empty_row; empty_row; empty_row], Ok true) /\
  sameTiles [[0; 0; 3; 3; 0; 0]; [0; 0; 3; 0; 0; 0];
             empty_row; empty_row; empty_row; empty_row] 3 2 0
  = [(2, 0); (3, 0); (2, 1)] /\
  Forall (fun c => c <> (1, 2) /\ ~ adjacent (1, 2) c)
         [(2, 0); (3, 0); (2, 1)] /\
  handleClick true 3 1 2 stairs_board =
  ([[0; 0; 4; 0; 0; 0]; empty_row; empty_row; empty_row; empty_row; empty_row],
   Ok js_undefined).
Proof.
  split; [|split; [reflexivity|split; [reflexivity|split; [reflexivity|split;
    [|reflexivity]]]]].
  - apply (reachable_clicks
             [(false, (2, 0)); (false, (4, 0)); (false, (3, 0));
              (false, (1, 0)); (false, (2, 1)); (false, (2, 0));
              (false, (2, 1)); (false, (3, 1));
              (true, (0, 1)); (true, (1, 1))] initial_grid);
      [apply reachable_initial | reflexivity].
  - repeat constructor; try discriminate; unfold adjacent; cbn; discriminate.
Qed.

(** C7, as the code has it.  A collapse happens around a scanned occupied
    cell with two different neighbours holding its value.  It sets every
    neighbour holding that value to 0, sets the scanned cell to its value
    plus one (a safe integer, so that the sum is exact; no tier is a
    maximum), reports a merge, and leaves every other cell as it was. *)
Theorem collapse_clears_group_and_raises_cell
    (g : Grid) (x y val : Z) (merged : bool) (a b : coord) :
  cell g (x, y) = Some val -> val <> 0 -> safe_integer val = true ->
  a <> b -> adjacent (x, y) a -> adjacent (x, y) b ->
  cell g a = Some val -> cell g b = Some val ->
  exists g',
    scanCell x y merged g = (g', Ok true) /\
    cell g' (x, y) = Some (val + 1) /\
    (forall c, adjacent (x, y) c -> cell g c = Some val ->
               cell g' c = Some 0) /\
    (forall c, c <> (x, y) ->
               ~ (adjacent (x, y) c /\ cell g c = Some val) ->
               cell g' c = cell g c).
Proof.
  intros Hc Hv _ Hab Ha Hb Hva Hvb.
  pose proof (two_equal_neighbours g x y val a b Hab Ha Hb Hva Hvb) as Hlen.
  exists (collapse g val x y).
  pose proof (cell_collapse g val x y) as Hcol.
  split; [apply (scanCell_collapse g x y val); assumption|].
  split; [|split].
  - rewrite Hcol by exact Hc. rewrite decide_True; reflexivity.
  - intros c Hadj Hvc. rewrite Hcol by exact Hc.
    rewrite decide_False by (symmetry; apply adjacent_ne, Hadj).
    rewrite decide_True; [reflexivity|]. apply elem_of_sameTiles. auto.
  - intros c Hne Hout. rewrite Hcol by exact Hc.
    rewrite decide_False by exact Hne. rewrite decide_False; [reflexivity|].
    intros [?|?]%elem_of_sameTiles; [contradiction | exact (Hout H)].
Qed.

Lemma collapse_clears_group_and_raises_cell_witness :
  cell corner_board (0, 0) = Some 1 /\ 1 <> 0 /\ safe_integer 1 = true /\
  (1, 0) <> (0, 1) /\ adjacent (0, 0) (1, 0) /\ adjacent (0, 0) (0, 1) /\
  cell corner_board (1, 0) = Some 1 /\ cell corner_board (0, 1) = Some 1 /\
  exists g',
    scanCell 0 0 false corner_board = (g', Ok true) /\
    cell g' (0, 0) = Some 2 /\
    cell g' (1, 0) = Some 0 /\ cell g' (0, 1) = Some 0.
Proof.
  assert (1 <> 0) as H10 by discriminate.
  assert ((1, 0) <> (0, 1)) as Hne by discriminate.
  destruct (collapse_clears_group_and_raises_cell corner_board 0 0 1 false
              (1, 0) (0, 1) eq_refl H10 eq_refl Hne eq_refl eq_refl
              eq_refl eq_refl) as (g' & Hrun & Hcentre & Hclr & _).
  repeat (split; [reflexivity || assumption|]).
  exists g'. split; [exact Hrun|]. split; [exact Hcentre|].
  split; apply Hclr; reflexivity.
Defined.

(** C7 fails as stated: no tier is a maximum.  The tiles a click draws are
    1 and 2; on a board of a game, a tile 2 put between two tiles 2 makes
    the row of three that the merge resolution then collapses into a tile
    3.  And whatever tier is taken as the highest, the same row of three
    tiles of that tier collapses into a tile one higher. *)
Lemma collapse_has_no_cap :
  getRandomTile true = 1 /\ getRandomTile false = 2 /\
  reachable bush_gap_board /\
  put bush_gap_board (1, 0) (getRandomTile false) = row_of_three 2 /\
  handleClick false 2 1 0 bush_gap_board =
  ([[0; 3; 0; 0; 0; 0]; empty_row; empty_row; empty_row; empty_row; empty_row],
   Ok js_undefined) /\
  (forall top, 0 < top -> safe_integer top = true ->
     exists g', scanCell 1 0 false (row_of_three top) = (g', Ok true) /\
                cell g' (1, 0) = Some (top + 1) /\ top < top + 1).
Proof.
  split; [reflexivity|]. split; [reflexivity|].
  split; [|split; [reflexivity|split; [reflexivity|]]].
  - apply (reachable_clicks [(false, (0, 0)); (false, (2, 0))] initial_grid);
      [apply reachable_initial | reflexivity].
  - intros top Hpos _.
    assert (cell (row_of_three top) (1, 0) = Some top) as Hc by reflexivity.
    assert (3 <= length (sameTiles (row_of_three top) top 1 0))%nat as Hlen.
    { apply (two_equal_neighbours _ 1 0 top (2, 0) (0, 0));
        reflexivity || discriminate. }
    exists (collapse (row_of_three top) top 1 0).
    split; [apply (scanCell_collapse _ 1 0 top); [exact Hc | lia | exact Hlen]|].
    split; [|lia]. rewrite cell_collapse by exact Hc.
    rewrite decide_True; reflexivity.
Qed.

(** C9.  The inspection of the neighbours is safe at the edges: a
    coordinate outside the board never matches, the group found around a
    cell of the board only has members on the board, and the scan of a cell,
    the pass and the cascade all return a board, without an exception, on
    every 6x6 grid. *)
Theorem neighbour_inspection_is_bounds_safe
    (g : Grid) (x y : Z) (merged : bool) :
  wf_grid g = true -> on_board (x, y) ->
  (forall val c, ~ on_board c -> same_at g val c = false) /\
  (forall val c, c ∈ sameTiles g val x y ->
     on_board c /\
     (c = (x, y) \/ (adjacent (x, y) c /\ cell g c = Some val))) /\
  (exists g' m, scanCell x y merged g = (g', Ok m) /\ wf_grid g' = true) /\
  (exists g' m, scan g = (g', Ok m) /\ wf_grid g' = true) /\
  (exists g', wf_grid g' = true /\
     forall fuel, (occupied g < 2 * fuel)%nat ->
                  mergeTiles fuel g = (g', Ok tt)).
Proof.
  intros Hg Hb. split; [|split; [|split; [|split]]].
  - intros val c Hc. destruct (same_at g val c) eqn:Hs; [|reflexivity].
    apply same_at_cell in Hs. exfalso. apply Hc.
    eapply wf_cell_on_board; eassumption.
  - intros val c Hin. pose proof Hin as Hin'.
    apply elem_of_sameTiles in Hin' as [->|[Hadj Hc]].
    + auto.
    + split; [eapply wf_cell_on_board; eassumption | auto].
  - destruct (wf_on_board_cell g (x, y) Hg Hb) as [val Hc].
    rewrite (scanCell_eq _ _ _ _ _ Hc).
    destruct (has_group g (x, y)).
    + eexists _, _. split; [reflexivity|]. apply wf_collapse, Hg.
    + eexists _, _. split; [reflexivity|]. exact Hg.
  - destruct (scan_sound g Hg) as (g' & m & Hrun & (Hg' & _) & _). eauto.
  - destruct (mergeTiles_sound (S (occupied g)) g Hg)
      as (g' & Hrun & Hg' & _); [lia|].
    exists g'. split; [exact Hg'|]. intros fuel Hfuel. rewrite <- Hrun.
    apply mergeTiles_fuel_irrelevant; [exact Hg | exact Hfuel | lia].
Qed.

Lemma neighbour_inspection_is_bounds_safe_witness :
  wf_grid corner_board = true /\ on_board (0, 0) /\
  (forall val c, c ∈ sameTiles corner_board val 0 0 -> on_board c) /\
  exists g', wf_grid g' = true /\
     forall fuel, (occupied corner_board < 2 * fuel)%nat ->
                  mergeTiles fuel corner_board = (g', Ok tt).
Proof.
  assert (on_board (0, 0)) as Hb by (unfold on_board, gridSize; simpl; lia).
  destruct (neighbour_inspection_is_bounds_safe corner_board 0 0 false
              eq_refl Hb) as (_ & Hmem & _ & _ & Hrun).
  split; [reflexivity|]. split; [exact Hb|]. split; [|exact Hrun].
  intros val c Hin. apply (Hmem val c Hin).
Defined.

(** C10.  The cascade never fills an empty cell: a cell that holds 0 before
    holds 0 after, every cell whose content changed was occupied before, and
    the occupied cells after are among the occupied cells before. *)
Theorem merge_never_fills_an_empty_cell (g : Grid) (fuel : nat) :
  wf_grid g = true -> (occupied g < 2 * fuel)%nat ->
  exists g',
    mergeTiles fuel g = (g', Ok tt) /\
    (forall c, cell g c = Some 0 -> cell g' c = Some 0) /\
    (forall c, cell g' c <> cell g c -> occupied_at g c = true) /\
    (forall c, occupied_at g' c = true -> occupied_at g c = true) /\
    (occupied g' <= occupied g)%nat.
Proof.
  intros Hg Hfuel.
  destruct (mergeTiles_sound fuel g Hg Hfuel)
    as (g' & Hrun & Hg' & _ & Hocc & Hzero & _).
  assert (forall c, cell g c = None -> cell g' c = None) as Hnone.
  { intros c Hc. destruct (cell g' c) as [v'|] eqn:Hc'; [|reflexivity].
    apply (wf_cell_on_board _ _ _ Hg') in Hc'.
    destruct (wf_on_board_cell g c Hg Hc') as [v Hv]. congruence. }
  exists g'. split; [exact Hrun|]. split; [exact Hzero|].
  split; [|split; [|exact Hocc]].
  - intros c Hne. apply occupied_at_true.
    destruct (cell g c) as [v|] eqn:Hc.
    + exists v. split; [reflexivity|]. intros ->. apply Hne, Hzero, Hc.
    + exfalso. apply Hne, Hnone, Hc.
  - intros c (v' & Hc' & Hv')%occupied_at_true. apply occupied_at_true.
    destruct (cell g c) as [v|] eqn:Hc.
    + exists v. split; [reflexivity|]. intros ->.
      rewrite (Hzero c Hc) in Hc'. congruence.
    + rewrite (Hnone c Hc) in Hc'. discriminate.
Qed.

Lemma merge_never_fills_an_empty_cell_witness :
  wf_grid corner_board = true /\ (occupied corner_board < 2 * 2)%nat /\
  exists g',
    mergeTiles 2 corner_board = (g', Ok tt) /\
    (forall c, cell corner_board c = Some 0 -> cell g' c = Some 0) /\
    (occupied g' <= occupied corner_board)%nat.
Proof.
  assert (occupied corner_board < 2 * 2)%nat as Hfuel.
  { apply Nat.ltb_lt. vm_compute. reflexivity. }
  destruct (merge_never_fills_an_empty_cell corner_board 2 eq_refl Hfuel)
    as (g' & Hrun & Hzero & _ & _ & Hocc).
  split; [reflexivity|]. split; [exact Hfuel|]. exists g'. auto.
Defined.

End PrototypeFacts.

(** ** Facts about the view *)

Module ViewFacts.
Import View.

Lemma js_property_keys (v : Z) :
  is_Some (js_property ITEM_TYPES v) <->
  0 <= v <= 7 \/ v = -1 \/ v = -2 \/ v = -3 \/ v = -99.
Proof.
  unfold ITEM_TYPES. cbn [js_property].
  repeat match goal with
         | |- context [?k =? v] =>
             destruct (Z.eqb_spec k v) as [<-|?];
             [split; [intros _; lia | intros _; eexists; reflexivity]|]
         end.
  split; [intros [it [=]] | lia].
Qed.

(** C8.  The encoding of cell values that the view consumes: the table
    names 0 to 7 grass, bush, tree, house, mansion, castle, crystal and
    monument, -1 bear, -2 tombstone, -3 rock and -99 empty, and has no other
    key; the progression shown in the legend is 0 to 7; and a cell is empty,
    hence its button enabled while the game runs, exactly when its value is
    -99. *)
Theorem cell_value_encoding (v : Z) (game_over loading : bool) :
  (fun k => name <$> js_property ITEM_TYPES k) <$> [0; 1; 2; 3; 4; 5; 6; 7]
  = Some <$> ["grass"; "bush"; "tree"; "house"; "mansion"; "castle";
              "crystal"; "monument"] /\
  name <$> js_property ITEM_TYPES (-1) = Some "bear" /\
  name <$> js_property ITEM_TYPES (-2) = Some "tombstone" /\
  name <$> js_property ITEM_TYPES (-3) = Some "rock" /\
  name <$> js_property ITEM_TYPES (-99) = Some "empty" /\
  (is_Some (js_property ITEM_TYPES v) <->
   0 <= v <= 7 \/ v = -1 \/ v = -2 \/ v = -3 \/ v = -99) /\
  fst <$> legend = [0; 1; 2; 3; 4; 5; 6; 7] /\
  (in_legend v = true <-> 0 <= v <= 7) /\
  (isEmpty v = true <-> v = -99) /\
  (disabled v game_over loading = false <->
   v = -99 /\ game_over = false /\ loading = false).
Proof.
  repeat (split; [reflexivity|]).
  split; [apply js_property_keys|]. split; [reflexivity|].
  split; [|split].
  - unfold in_legend. rewrite negb_true_iff, orb_false_iff.
    rewrite Z.ltb_ge, Z.gtb_ltb, Z.ltb_ge. lia.
  - unfold isEmpty. apply Z.eqb_eq.
  - unfold disabled, isEmpty. rewrite !orb_false_iff, negb_false_iff.
    rewrite Z.eqb_eq. tauto.
Qed.

End ViewFacts.

(** ** Facts about the engine *)

Module EngineFacts.
Import Prototype PrototypeFacts Engine.

(** *** Counting *)

Section Flip.
Context {A : Type} (P Q : A -> Prop).
Context `{!forall a, Decision (P a), !forall a, Decision (Q a)}.

Lemma count_same (l : list A) :
  (forall a, a ∈ l -> (Q a <-> P a)) ->
  length (filter Q l) = length (filter P l).
Proof.
  intros Hiff.
  apply Nat.le_antisymm; apply count_le; intros a Ha; apply Hiff, Ha.
Qed.

Lemma count_flip (l : list A) (d : A) :
  NoDup l -> d ∈ l -> P d -> ~ Q d ->
  (forall a, a ∈ l -> a <> d -> (Q a <-> P a)) ->
  (length (filter Q l) + 1 = length (filter P l))%nat.
Proof.
  induction l as [|a l IH]; intros Hnd Hin Hp Hq Hrest.
  { apply elem_of_nil in Hin as []. }
  apply NoDup_cons in Hnd as [Ha Hnd]. rewrite !filter_cons.
  apply elem_of_cons in Hin as [<-|Hin].
  - rewrite decide_False by exact Hq. rewrite decide_True by exact Hp.
    cbn [length]. rewrite (count_same l); [lia|].
    intros b Hb. apply Hrest; [right; exact Hb|]. intros ->. contradiction.
  - assert (a <> d) as Hne by (intros ->; contradiction).
    assert (length (filter Q l) + 1 = length (filter P l))%nat as IH'.
    { apply IH; try assumption. intros b Hb. apply Hrest. right. exact Hb. }
    destruct (Hrest a (list_elem_of_here _ _) Hne) as [Hqp Hpq].
    destruct (decide (Q a)) as [Hqa|Hqa]; destruct (decide (P a)) as [Hpa|Hpa];
      cbn [length]; try lia; tauto.
Qed.
End Flip.

Lemma length_filter_ne {A} `{!EqDecision A} (l : list A) (d : A) :
  NoDup l -> d ∈ l ->
  (length (filter (fun a => a <> d) l) + 1 = length l)%nat.
Proof.
  intros Hnd Hin.
  assert (forall k : list A, filter (fun _ => True) k = k) as Hall.
  { induction k as [|a k IH]; [reflexivity|].
    rewrite filter_cons_True by exact I. rewrite IH. reflexivity. }
  rewrite <- (Hall l) at 2.
  apply (count_flip _ _ l d); auto.
  intros a _ Hne. tauto.
Qed.

(** *** The grid *)

Lemma in_bounds_on_board (c : coord) : in_bounds c = true <-> on_board c.
Proof.
  unfold in_bounds, on_board, N, gridSize.
  rewrite !andb_true_iff, !Z.leb_le, !Z.ltb_lt. lia.
Qed.

Lemma isEmpty_false (g : Grid) (c : coord) :
  wf_grid g = true -> on_board c ->
  isEmpty g c = false <-> exists w, get g c = Some w /\ w <> EMPTY.
Proof.
  intros Hg Hb. destruct (wf_on_board_cell g c Hg Hb) as [w Hw].
  unfold isEmpty, get. rewrite Hw, Z.eqb_neq. split.
  - eauto.
  - intros (w' & [= <-] & Hne). exact Hne.
Qed.

Lemma mergeable_not_empty (v : Z) : mergeable v = true -> v <> EMPTY.
Proof.
  unfold mergeable, EMPTY, LOWEST_TIER, HIGHEST_TIER, MARKER.
  rewrite orb_true_iff, andb_true_iff, !Z.leb_le, Z.eqb_eq. lia.
Qed.

Lemma next_level_not_empty (v : Z) :
  mergeable v = true -> next_level v <> EMPTY.
Proof.
  unfold mergeable, next_level, EMPTY, LOWEST_TIER, HIGHEST_TIER, MARKER.
  rewrite orb_true_iff, andb_true_iff, !Z.leb_le, Z.eqb_eq.
  destruct (Z.eqb_spec v (-2)); lia.
Qed.

(** *** The merge group *)

Lemma search_sound (fuel : nat) (g : Grid) (v : Z) (work seen : list coord) :
  NoDup seen -> (forall c, c ∈ seen -> get g c = Some v) ->
  NoDup (search fuel g v work seen) /\
  (forall c, c ∈ search fuel g v work seen -> get g c = Some v) /\
  (forall c, c ∈ seen -> c ∈ search fuel g v work seen).
Proof.
  revert work seen. induction fuel as [|n IH]; intros work seen Hnd Hv.
  { cbn [search]. auto. }
  destruct work as [|c rest]; [cbn [search]; auto|].
  cbn [search].
  set (fresh := filter (fun d => get g d = Some v /\ d ∉ seen) (neighbors4 c)).
  destruct (IH (rest ++ fresh) (seen ++ fresh)) as (H1 & H2 & H3).
  - apply NoDup_app. split; [exact Hnd|]. split.
    + intros d Hd [[_ Hnew] _]%list_elem_of_filter. exact (Hnew Hd).
    + apply NoDup_filter, NoDup_filter, NoDup_neighbours.
  - intros d [Hd|[[Hd _] _]%list_elem_of_filter]%elem_of_app; auto.
  - split; [exact H1|]. split; [exact H2|].
    intros d Hd. apply H3, elem_of_app. left. exact Hd.
Qed.

Lemma group_sound (g : Grid) (origin : coord) (v : Z) :
  get g origin = Some v ->
  NoDup (group g origin) /\ origin ∈ group g origin /\
  (forall c, c ∈ group g origin -> get g c = Some v).
Proof.
  intros Hv. unfold group. rewrite Hv.
  assert (NoDup [origin]) as Hnd.
  { apply NoDup_singleton. }
  assert (forall c, c ∈ [origin] -> get g c = Some v) as Hone.
  { intros c ->%list_elem_of_singleton. exact Hv. }
  destruct (mergeable v).
  - destruct (search_sound (Z.to_nat (N * N)) g v [origin] [origin] Hnd Hone)
      as (H1 & H2 & H3).
    split; [exact H1|]. split; [|exact H2]. apply H3. left.
  - split; [exact Hnd|]. split; [left | exact Hone].
Qed.

Lemma group_large_mergeable (g : Grid) (origin : coord) (v : Z) :
  get g origin = Some v -> (3 <= length (group g origin))%nat ->
  mergeable v = true.
Proof.
  intros Hv. unfold group. rewrite Hv.
  destruct (mergeable v); [reflexivity|]. cbn [length]. lia.
Qed.

Lemma elem_of_neighbors4 (c d : coord) :
  d ∈ neighbors4 c <-> on_board d /\ adjacent c d.
Proof.
  unfold neighbors4. rewrite list_elem_of_filter, in_bounds_on_board.
  rewrite elem_of_neighbours. destruct c; reflexivity.
Qed.

Lemma length_on_board (l : list coord) :
  NoDup l -> (forall c, c ∈ l -> on_board c) -> (length l <= 36)%nat.
Proof.
  intros Hnd Hl. change 36%nat with (length cells).
  apply submseteq_length, NoDup_submseteq; [exact Hnd|].
  intros c Hc. apply elem_of_cells, Hl, Hc.
Qed.

(** The search stops on a set that is closed under equal neighbours, and
    every coordinate it returns is chained to the origin. *)
Lemma search_complete (fuel : nat) (g : Grid) (v : Z) (origin : coord)
    (work seen : list coord) :
  wf_grid g = true ->
  NoDup seen ->
  (forall c, c ∈ seen -> connected g v origin c) ->
  (forall c, c ∈ work -> c ∈ seen) ->
  (forall c d, c ∈ seen -> c ∉ work ->
               adjacent c d -> get g d = Some v -> d ∈ seen) ->
  (length work + 36 <= fuel + length seen)%nat ->
  (forall c, c ∈ search fuel g v work seen -> connected g v origin c) /\
  (forall c d, c ∈ search fuel g v work seen ->
               adjacent c d -> get g d = Some v ->
               d ∈ search fuel g v work seen).
Proof.
  intros Hg. revert work seen.
  induction fuel as [|n IH]; intros work seen Hnd Hconn Hsub Hclosed Hfuel.
  - cbn [search]. split; [exact Hconn|].
    assert (length seen <= 36)%nat as Hlen.
    { apply length_on_board; [exact Hnd|]. intros c Hc.
      destruct (connected_cell _ _ _ _ (Hconn c Hc)) as [_ Hv].
      eapply wf_cell_on_board; eassumption. }
    destruct work as [|c work]; [|cbn [length] in Hfuel; lia].
    intros c d Hc. apply Hclosed; [exact Hc | apply not_elem_of_nil].
  - destruct work as [|c rest].
    { cbn [search]. split; [exact Hconn|].
      intros c d Hc. apply Hclosed; [exact Hc | apply not_elem_of_nil]. }
    cbn [search].
    set (fresh := filter (fun d => get g d = Some v /\ d ∉ seen) (neighbors4 c)).
    assert (forall d, d ∈ fresh <->
              (get g d = Some v /\ d ∉ seen) /\ on_board d /\ adjacent c d)
      as Hfresh.
    { intros d. unfold fresh.
      rewrite list_elem_of_filter, elem_of_neighbors4. reflexivity. }
    assert (c ∈ seen) as Hc by (apply Hsub; left).
    apply IH.
    + apply NoDup_app. split; [exact Hnd|]. split.
      * intros d Hd [[_ Hnew] _]%Hfresh. exact (Hnew Hd).
      * apply NoDup_filter, NoDup_filter, NoDup_neighbours.
    + intros d [Hd|[[Hv _] [_ Hadj]]%Hfresh]%elem_of_app; [auto|].
      eapply connected_step; [apply Hconn, Hc | exact Hadj | exact Hv].
    + intros d [Hd|Hd]%elem_of_app; apply elem_of_app.
      * left. apply Hsub. right. exact Hd.
      * right. exact Hd.
    + intros c0 d [Hc0|Hc0]%elem_of_app Hnw Hadj Hv.
      2:{ exfalso. apply Hnw, elem_of_app. right. exact Hc0. }
      apply elem_of_app.
      destruct (decide (c0 ∈ c :: rest)) as [Hin|Hnin].
      * apply elem_of_cons in Hin as [->|Hin].
        2:{ exfalso. apply Hnw, elem_of_app. left. exact Hin. }
        destruct (decide (d ∈ seen)) as [|Hnd']; [left; assumption|right].
        apply Hfresh. split; [split; assumption|]. split; [|assumption].
        eapply wf_cell_on_board; eassumption.
      * left. eapply Hclosed; eassumption.
    + rewrite !length_app. cbn [length] in Hfuel. lia.
Qed.

(** The merge group of a mergeable cell is its connected component. *)
Lemma group_is_component (g : Grid) (origin : coord) (v : Z) (c : coord) :
  wf_grid g = true -> get g origin = Some v -> mergeable v = true ->
  c ∈ group g origin <-> connected g v origin c.
Proof.
  intros Hg Hv Hm. unfold group. rewrite Hv, Hm.
  destruct (search_complete (Z.to_nat (N * N)) g v origin [origin] [origin] Hg)
    as [Hsound Hclosed].
  - apply NoDup_singleton.
  - intros d ->%list_elem_of_singleton. apply connected_refl, Hv.
  - auto.
  - intros d e Hd Hnd. contradiction.
  - change (Z.to_nat (N * N)) with 36%nat. cbn [length]. lia.
  - split; [apply Hsound|].
    induction 1 as [a Ha|a b d Hab IH Hbd Hd].
    + destruct (search_sound (Z.to_nat (N * N)) g v [a] [a]) as (_ & _ & H3).
      * apply NoDup_singleton.
      * intros d ->%list_elem_of_singleton. exact Ha.
      * apply H3. left.
    + eapply Hclosed; [apply IH; assumption | exact Hbd | exact Hd].
Qed.

(** *** A collapse *)

Lemma get_collapse (g : Grid) (origin : coord) (grp : list coord)
    (v : Z) (c : coord) :
  origin ∈ grp -> (forall d, d ∈ grp -> get g d = Some v) ->
  get (collapse g origin grp v) c =
  if decide (c = origin) then Some (next_level v)
  else if decide (c ∈ grp) then Some EMPTY
  else get g c.
Proof.
  intros Ho Hgrp. unfold get, collapse, set.
  destruct (cell_nonneg g origin v (Hgrp origin Ho)) as [Hx Hy].
  assert (forall d, d ∈ filter (fun c0 => c0 <> origin) grp ->
                    is_Some (cell g d)) as Hex.
  { intros d [_ Hd]%list_elem_of_filter. exists v. apply Hgrp, Hd. }
  rewrite cell_put by assumption. rewrite !cell_fill by exact Hex.
  destruct (decide (c = origin)) as [->|Hne].
  - rewrite decide_False.
    + unfold get in Hgrp. rewrite (Hgrp origin Ho). reflexivity.
    + intros [Hn _]%list_elem_of_filter. apply Hn. reflexivity.
  - destruct (decide (c ∈ grp)) as [Hin|Hnin].
    + rewrite decide_True by (apply list_elem_of_filter; auto).
      unfold get in Hgrp. rewrite (Hgrp c Hin). reflexivity.
    + rewrite decide_False; [reflexivity|].
      intros [_ Hin]%list_elem_of_filter. contradiction.
Qed.

Lemma wf_collapse_engine (g : Grid) (origin : coord) (grp : list coord)
    (v : Z) :
  wf_grid g = true -> wf_grid (collapse g origin grp v) = true.
Proof. intros Hg. apply wf_put, wf_fill, Hg. Qed.

(** *** Counting non-Empty cells *)

Lemma isEmpty_set (g : Grid) (c a : coord) (v : Z) :
  on_board c ->
  isEmpty (set g c v) a =
  if decide (a = c)
  then match get g c with Some _ => v =? EMPTY | None => false end
  else isEmpty g a.
Proof.
  intros [[Hx _] [Hy _]]. unfold isEmpty, get, set.
  rewrite cell_put by assumption.
  destruct (decide (a = c)) as [->|]; [|reflexivity].
  destruct (cell g c); reflexivity.
Qed.

Lemma occupied_set_keep (g : Grid) (c : coord) (v : Z) :
  wf_grid g = true -> on_board c -> isEmpty g c = false -> v <> EMPTY ->
  occupied (set g c v) = occupied g.
Proof.
  intros Hg Hb Hc Hv. unfold occupied. apply count_same.
  intros a _. rewrite isEmpty_set by exact Hb.
  destruct (decide (a = c)) as [->|]; [|reflexivity].
  destruct (wf_on_board_cell g c Hg Hb) as [w Hw]. unfold get. rewrite Hw.
  rewrite Hc. apply Z.eqb_neq in Hv. rewrite Hv. reflexivity.
Qed.

Lemma occupied_set_clear (g : Grid) (c : coord) :
  wf_grid g = true -> on_board c -> isEmpty g c = false ->
  (occupied (set g c EMPTY) + 1 = occupied g)%nat.
Proof.
  intros Hg Hb Hc. unfold occupied.
  destruct (wf_on_board_cell g c Hg Hb) as [w Hw].
  apply (count_flip _ _ cells c).
  - apply NoDup_cells.
  - apply elem_of_cells, Hb.
  - exact Hc.
  - rewrite isEmpty_set by exact Hb. rewrite decide_True by reflexivity.
    unfold get. rewrite Hw. discriminate.
  - intros a _ Hne. rewrite isEmpty_set by exact Hb.
    rewrite decide_False by exact Hne. reflexivity.
Qed.

Lemma occupied_set_new (g : Grid) (c : coord) (v : Z) :
  wf_grid g = true -> on_board c -> isEmpty g c = true -> v <> EMPTY ->
  occupied (set g c v) = (occupied g + 1)%nat.
Proof.
  intros Hg Hb Hc Hv. unfold occupied. symmetry.
  destruct (wf_on_board_cell g c Hg Hb) as [w Hw].
  apply (count_flip _ _ cells c).
  - apply NoDup_cells.
  - apply elem_of_cells, Hb.
  - rewrite isEmpty_set by exact Hb. rewrite decide_True by reflexivity.
    unfold get. rewrite Hw. apply Z.eqb_neq, Hv.
  - rewrite Hc. discriminate.
  - intros a _ Hne. rewrite isEmpty_set by exact Hb.
    rewrite decide_False by exact Hne. reflexivity.
Qed.

Lemma occupied_fill_clear (D : list coord) (g : Grid) :
  wf_grid g = true -> NoDup D ->
  (forall d, d ∈ D -> on_board d /\ isEmpty g d = false) ->
  (occupied (fill g D EMPTY) + length D = occupied g)%nat.
Proof.
  revert g. induction D as [|d D IH]; intros g Hg Hnd HD.
  { change (fill g [] EMPTY) with g. cbn [length]. lia. }
  apply NoDup_cons in Hnd as [Hd Hnd].
  destruct (HD d) as [Hb He]; [left|].
  change (fill g (d :: D) EMPTY) with (fill (set g d EMPTY) D EMPTY).
  pose proof (occupied_set_clear g d Hg Hb He) as Hone.
  rewrite <- Hone. cbn [length].
  rewrite <- (IH (set g d EMPTY)); [lia | apply wf_put, Hg | exact Hnd |].
  intros d' Hd'. destruct (HD d') as [Hb' He']; [right; exact Hd'|].
  split; [exact Hb'|]. rewrite isEmpty_set by exact Hb.
  rewrite decide_False; [exact He'|]. intros ->. contradiction.
Qed.

(** A collapse removes every member of the group but one. *)
Lemma occupied_collapse (g : Grid) (origin : coord) (grp : list coord)
    (v : Z) :
  wf_grid g = true -> mergeable v = true ->
  NoDup grp -> origin ∈ grp -> (forall d, d ∈ grp -> get g d = Some v) ->
  (occupied (collapse g origin grp v) + length grp = occupied g + 1)%nat.
Proof.
  intros Hg Hm Hnd Ho Hgrp.
  pose proof (mergeable_not_empty v Hm) as Hv.
  assert (forall d, d ∈ grp -> on_board d /\ isEmpty g d = false) as Hocc.
  { intros d Hd. pose proof (Hgrp d Hd) as Hgd.
    assert (on_board d) as Hb by (eapply wf_cell_on_board; eassumption).
    split; [exact Hb|]. apply isEmpty_false; eauto. }
  set (D := filter (fun c => c <> origin) grp).
  assert (occupied (fill g D EMPTY) + length D = occupied g)%nat as Hfill.
  { apply occupied_fill_clear; [exact Hg | apply NoDup_filter, Hnd |].
    intros d [_ Hd]%list_elem_of_filter. apply Hocc, Hd. }
  pose proof (length_filter_ne grp origin Hnd Ho) as Hlen. fold D in Hlen.
  unfold collapse. fold D.
  rewrite occupied_set_keep.
  - lia.
  - apply wf_fill, Hg.
  - apply Hocc, Ho.
  - destruct (Hocc origin Ho) as [Hb He].
    unfold isEmpty, get. rewrite cell_fill.
    + rewrite decide_False; [exact He|].
      intros [Hn _]%list_elem_of_filter. apply Hn. reflexivity.
    + intros d [_ Hd]%list_elem_of_filter. exists v. apply Hgrp, Hd.
  - apply next_level_not_empty, Hm.
Qed.

Lemma occupied_le_board (g : Grid) : (occupied g <= 36)%nat.
Proof.
  unfold occupied.
  etransitivity; [apply length_filter|]. vm_compute. reflexivity.
Qed.

(** *** The resolver *)

Lemma length_union_first {A} `{!EqDecision A} (grp : list A) :
  NoDup grp -> length (list_union grp []) = length grp.
Proof.
  intros Hnd. unfold list_union. rewrite length_app, Nat.add_0_r.
  apply Permutation_length, NoDup_Permutation.
  - apply NoDup_list_difference, Hnd.
  - exact Hnd.
  - intros a. rewrite list_elem_of_difference, elem_of_nil. tauto.
Qed.

Lemma length_union_next {A} `{!EqDecision A}
    (grp rest : list A) (origin : A) :
  NoDup grp -> origin ∈ grp -> origin ∈ rest ->
  (forall a, a ∈ rest -> a <> origin -> a ∉ grp) ->
  (length (list_union grp rest) + 1 = length grp + length rest)%nat.
Proof.
  intros Hnd Ho Hor Hdisj. unfold list_union. rewrite length_app.
  rewrite <- (length_filter_ne grp origin Hnd Ho).
  enough (length (list_difference grp rest)
          = length (filter (fun a => a <> origin) grp)) by lia.
  apply Permutation_length, NoDup_Permutation.
  - apply NoDup_list_difference, Hnd.
  - apply NoDup_filter, Hnd.
  - intros a. rewrite list_elem_of_difference, list_elem_of_filter. split.
    + intros [Ha Hna]. split; [|exact Ha]. intros ->. contradiction.
    + intros [Hne Ha]. split; [exact Ha|]. intros Har.
      exact (Hdisj a Har Hne Ha).
Qed.

Lemma resolve_rounds_sound (fuel : nat) (g : Grid) (origin : coord) :
  wf_grid g = true -> on_board origin -> (occupied g < 2 * fuel)%nat ->
  exists r,
    resolve_rounds fuel g origin = Some r /\
    wf_grid (board r) = true /\
    (occupied (board r) <= occupied g)%nat /\
    scoreDelta r
    = 10 * (Z.of_nat (occupied g) - Z.of_nat (occupied (board r))) /\
    NoDup (mergedPositions r) /\
    (forall c, c ∈ mergedPositions r -> c <> origin ->
               exists w, get g c = Some w /\ w <> EMPTY) /\
    ((mergedPositions r = [] /\ scoreDelta r = 0 /\ board r = g) \/
     (origin ∈ mergedPositions r /\
      10 * Z.of_nat (length (mergedPositions r)) = scoreDelta r + 10)).
Proof.
  revert g. induction fuel as [|n IH]; intros g Hg Hb Hfuel; [lia|].
  destruct (wf_on_board_cell g origin Hg Hb) as [v Hv].
  cbn [resolve_rounds]. unfold get at 1. rewrite Hv.
  destruct (Nat.leb_spec 3 (length (group g origin))) as [Hlen|Hlen].
  2:{ eexists. split; [reflexivity|]. cbn [board mergedPositions scoreDelta].
      repeat split; auto; try lia.
      - apply NoDup_nil. exact I.
      - intros c []%elem_of_nil. }
  pose proof (group_large_mergeable g origin v Hv Hlen) as Hm.
  destruct (group_sound g origin v Hv) as (Hnd & Ho & Hgrp).
  pose proof (occupied_collapse g origin _ v Hg Hm Hnd Ho Hgrp) as Hocc.
  set (grp := group g origin) in *.
  pose proof (fun c => get_collapse g origin grp v c Ho Hgrp) as Hget.
  set (g1 := collapse g origin grp v) in *.
  destruct (IH g1) as (r1 & Hr1 & Hwf1 & Hle1 & Hd1 & Hnd1 & Hmem1 & Hcase1);
    [apply wf_collapse_engine, Hg | exact Hb | lia |].
  rewrite Hr1. eexists. split; [reflexivity|].
  cbn [board mergedPositions scoreDelta].
  assert (forall c, c ∈ mergedPositions r1 -> c <> origin -> c ∉ grp)
    as Hdisj.
  { intros c Hc Hne Hin. destruct (Hmem1 c Hc Hne) as (w & Hw & Hwe).
    rewrite Hget in Hw.
    rewrite decide_False, decide_True in Hw by assumption. congruence. }
  split; [exact Hwf1|]. split; [lia|]. split; [lia|].
  split; [apply NoDup_list_union; assumption|]. split.
  - intros c [Hc|Hc]%list_elem_of_union Hne.
    + exists v. split; [apply Hgrp, Hc | apply mergeable_not_empty, Hm].
    + destruct (Hmem1 c Hc Hne) as (w & Hw & Hwe). exists w.
      split; [|exact Hwe]. rewrite Hget in Hw.
      rewrite decide_False in Hw by assumption.
      rewrite decide_False in Hw by (apply Hdisj; assumption). exact Hw.
  - right. split; [apply list_elem_of_union; left; exact Ho|].
    destruct Hcase1 as [(Hnil & Hzero & _)|(Hor & Hcount)].
    + rewrite Hnil, Hzero, length_union_first by exact Hnd. lia.
    + pose proof (length_union_next grp _ origin Hnd Ho Hor Hdisj). lia.
Qed.

Lemma resolve_sound (g : Grid) (origin : coord) :
  wf_grid g = true -> on_board origin ->
  exists r,
    resolve g origin = Some r /\
    wf_grid (board r) = true /\
    (occupied (board r) <= occupied g)%nat /\
    scoreDelta r
    = 10 * (Z.of_nat (occupied g) - Z.of_nat (occupied (board r))) /\
    ((mergedPositions r = [] /\ scoreDelta r = 0 /\ board r = g) \/
     (origin ∈ mergedPositions r /\
      10 * Z.of_nat (length (mergedPositions r)) = scoreDelta r + 10)).
Proof.
  intros Hg Hb. unfold resolve.
  destruct (resolve_rounds_sound (Z.to_nat (N * N)) g origin Hg Hb)
    as (r & Hr & Hwf & Hle & Hd & _ & _ & Hcase).
  - pose proof (occupied_le_board g). change (Z.to_nat (N * N)) with 36%nat.
    lia.
  - exists r. auto.
Qed.

(** Which positions the resolver reports: the cells its cascade removed
    (non-Empty before, Empty after) and, when a merge occurred, the origin,
    which is levelled and never removed.  Every other cell is left as it
    was. *)
Lemma resolve_rounds_positions (fuel : nat) (g : Grid) (origin : coord)
    (r : resolution) :
  wf_grid g = true -> on_board origin ->
  resolve_rounds fuel g origin = Some r ->
  (forall c, c <> origin ->
     c ∈ mergedPositions r <->
     isEmpty g c = false /\ isEmpty (board r) c = true) /\
  (forall c, c ∉ mergedPositions r -> get (board r) c = get g c) /\
  (origin ∈ mergedPositions r <-> (3 <= length (group g origin))%nat) /\
  isEmpty (board r) origin = isEmpty g origin.
Proof.
  revert g r. induction fuel as [|n IH]; intros g r Hg Hb Hr; [discriminate|].
  destruct (wf_on_board_cell g origin Hg Hb) as [v Hv].
  cbn [resolve_rounds] in Hr. unfold get at 1 in Hr. rewrite Hv in Hr.
  destruct (Nat.leb_spec 3 (length (group g origin))) as [Hlen|Hlen].
  2:{ injection Hr as <-. cbn [board mergedPositions].
      split; [|split; [|split]]; try reflexivity.
      - intros c _. split; [intros []%elem_of_nil | intros [H1 H2]; congruence].
      - split; [intros []%elem_of_nil | lia]. }
  pose proof (group_large_mergeable g origin v Hv Hlen) as Hm.
  destruct (group_sound g origin v Hv) as (Hnd & Ho & Hgrp).
  set (grp := group g origin) in *.
  pose proof (fun c => get_collapse g origin grp v c Ho Hgrp) as Hget.
  set (g1 := collapse g origin grp v) in *.
  destruct (resolve_rounds n g1 origin) as [r1|] eqn:Hr1; [|discriminate].
  injection Hr as <-. cbn [board mergedPositions].
  destruct (IH g1 r1) as (P1 & P2 & _ & P4);
    [apply wf_collapse_engine, Hg | exact Hb | exact Hr1 |].
  pose proof (mergeable_not_empty v Hm) as Hve. apply Z.eqb_neq in Hve.
  pose proof (next_level_not_empty v Hm) as Hne. apply Z.eqb_neq in Hne.
  assert (forall c, c <> origin ->
            isEmpty g1 c = if decide (c ∈ grp) then true else isEmpty g c)
    as Hemp1.
  { intros c Hc. unfold isEmpty. rewrite Hget, decide_False by exact Hc.
    destruct (decide (c ∈ grp)); reflexivity. }
  assert (forall c, c ∈ grp -> isEmpty g c = false) as Hfull.
  { intros c Hc. unfold isEmpty. rewrite (Hgrp c Hc). exact Hve. }
  assert (forall c, c <> origin -> isEmpty g1 c = true ->
                    isEmpty (board r1) c = true) as Hstay.
  { intros c Hc He. destruct (decide (c ∈ mergedPositions r1)) as [Hin|Hnin].
    - apply (P1 c Hc) in Hin as [Hf _]. congruence.
    - unfold isEmpty. rewrite (P2 c Hnin). exact He. }
  split; [|split; [|split]].
  - intros c Hc. rewrite list_elem_of_union. split.
    + intros [Hin|Hin].
      * split; [apply Hfull, Hin|]. apply Hstay; [exact Hc|].
        rewrite Hemp1, decide_True by assumption. reflexivity.
      * apply (P1 c Hc) in Hin as [Hf Ht]. split; [|exact Ht].
        rewrite Hemp1 in Hf by exact Hc.
        destruct (decide (c ∈ grp)); [discriminate | exact Hf].
    + intros [Hf Ht]. destruct (decide (c ∈ grp)) as [Hin|Hnin]; [left; exact Hin|].
      right. apply (P1 c Hc). split; [|exact Ht].
      rewrite Hemp1, decide_False by assumption. exact Hf.
  - intros c Hc. rewrite list_elem_of_union in Hc.
    assert (c ∉ grp) as Hng by tauto.
    assert (c ∉ mergedPositions r1) as Hnm by tauto.
    assert (c <> origin) as Hco by (intros ->; contradiction).
    rewrite (P2 c Hnm), Hget, !decide_False by assumption. reflexivity.
  - split; [intros _; exact Hlen|]. intros _. apply list_elem_of_union.
    left. exact Ho.
  - rewrite P4, (Hfull origin Ho). unfold isEmpty.
    rewrite Hget, decide_True by reflexivity. exact Hne.
Qed.

(** *** The enclosure pass *)

Lemma enclosure_sound (g : Grid) :
  wf_grid g = true ->
  wf_grid (enclosure g) = true /\ occupied (enclosure g) = occupied g.
Proof.
  unfold enclosure.
  assert (forall c, c ∈ cells -> on_board c) as Hcells.
  { intros c. apply elem_of_cells. }
  revert g Hcells. induction cells as [|c l IH]; intros g Hcells Hg.
  { cbn [foldl]. auto. }
  cbn [foldl].
  assert (on_board c) as Hb by (apply Hcells; left).
  assert (forall d, d ∈ l -> on_board d) as Hl.
  { intros d Hd. apply Hcells. right. exact Hd. }
  destruct (get g c) as [v|] eqn:Hv; [|apply IH; assumption].
  destruct ((v =? BLOCKER) && enclosed g c) eqn:Hconv; [|apply IH; assumption].
  apply andb_true_iff in Hconv as [->%Z.eqb_eq _].
  destruct (IH (set g c MARKER) Hl) as [Hwf Hocc]; [apply wf_put, Hg|].
  split; [exact Hwf|]. rewrite Hocc.
  apply occupied_set_keep; [exact Hg | exact Hb | | discriminate].
  apply isEmpty_false; [exact Hg | exact Hb |].
  exists BLOCKER. split; [exact Hv|discriminate].
Qed.

(** The enclosure pass turns blockers into markers: no cell becomes Empty
    and none stops being Empty. *)
Lemma enclosure_isEmpty (g : Grid) (d : coord) :
  wf_grid g = true -> isEmpty (enclosure g) d = isEmpty g d.
Proof.
  unfold enclosure.
  assert (forall c, c ∈ cells -> on_board c) as Hcells.
  { intros c. apply elem_of_cells. }
  revert g Hcells. induction cells as [|c l IH]; intros g Hcells Hg.
  { reflexivity. }
  cbn [foldl].
  assert (on_board c) as Hb by (apply Hcells; left).
  assert (forall d, d ∈ l -> on_board d) as Hl.
  { intros e He. apply Hcells. right. exact He. }
  destruct (get g c) as [v|] eqn:Hv; [|apply IH; assumption].
  destruct ((v =? BLOCKER) && enclosed g c) eqn:Hconv; [|apply IH; assumption].
  apply andb_true_iff in Hconv as [->%Z.eqb_eq _].
  rewrite (IH (set g c MARKER) Hl) by (apply wf_put, Hg).
  rewrite isEmpty_set by exact Hb.
  destruct (decide (d = c)) as [->|]; [|reflexivity].
  rewrite Hv. unfold isEmpty. rewrite Hv. reflexivity.
Qed.

(** *** Placements *)

Lemma wf_session_spec (s : Session) :
  wf_session s = true <-> wf_grid (grid s) = true /\ nextItem s <> EMPTY.
Proof.
  unfold wf_session. rewrite andb_true_iff, negb_true_iff, Z.eqb_neq.
  reflexivity.
Qed.

Lemma placement_sound (s : Session) (c : coord) :
  wf_session s = true -> in_bounds c = true -> isEmpty (grid s) c = true ->
  exists r,
    placement s c = Some r /\
    wf_grid (board r) = true /\
    (occupied (board r) <= occupied (grid s) + 1)%nat /\
    scoreDelta r
    = 10 * (Z.of_nat (occupied (grid s)) + 1 - Z.of_nat (occupied (board r))) /\
    ((mergedPositions r = [] /\ scoreDelta r = 0) \/
     (c ∈ mergedPositions r /\
      10 * Z.of_nat (length (mergedPositions r)) = scoreDelta r + 10)).
Proof.
  intros [Hg Hnext]%wf_session_spec Hb%in_bounds_on_board He.
  unfold placement.
  pose proof (occupied_set_new (grid s) c (nextItem s) Hg Hb He Hnext) as Hnew.
  destruct (enclosure_sound (set (grid s) c (nextItem s))) as [Hwf Henc];
    [apply wf_put, Hg|].
  destruct (resolve_sound _ c Hwf Hb) as (r & Hr & Hwfr & Hle & Hd & Hcase).
  exists r. split; [exact Hr|]. split; [exact Hwfr|].
  rewrite Henc, Hnew in Hle, Hd. split; [exact Hle|]. split.
  - rewrite Hd. lia.
  - destruct Hcase as [(Hnil & Hzero & _)|Hcount]; auto.
Qed.

Lemma placement_positions (s : Session) (c : coord) (r : resolution) :
  wf_session s = true -> in_bounds c = true -> isEmpty (grid s) c = true ->
  placement s c = Some r ->
  NoDup (mergedPositions r) /\
  (forall d, d <> c ->
     d ∈ mergedPositions r <->
     isEmpty (grid s) d = false /\ isEmpty (board r) d = true) /\
  (c ∈ mergedPositions r <->
   (3 <= length (group (enclosure (set (grid s) c (nextItem s))) c))%nat) /\
  isEmpty (board r) c = false /\
  (forall d, d ∉ mergedPositions r ->
     get (board r) d = get (enclosure (set (grid s) c (nextItem s))) d).
Proof.
  intros [Hg Hnext]%wf_session_spec Hb%in_bounds_on_board He Hr.
  unfold placement, resolve in Hr.
  set (g0 := enclosure (set (grid s) c (nextItem s))) in *.
  assert (wf_grid (set (grid s) c (nextItem s)) = true) as Hwf1
    by (apply wf_put, Hg).
  destruct (enclosure_sound _ Hwf1) as [Hwf _]. fold g0 in Hwf.
  destruct (resolve_rounds_sound (Z.to_nat (N * N)) g0 c Hwf Hb)
    as (r' & Hr' & _ & _ & _ & Hnd & _).
  { pose proof (occupied_le_board g0). change (Z.to_nat (N * N)) with 36%nat.
    lia. }
  assert (r' = r) as -> by congruence.
  destruct (resolve_rounds_positions _ g0 c r Hwf Hb Hr)
    as (P1 & P2 & P3 & P4).
  assert (forall d, isEmpty g0 d =
            if decide (d = c) then false else isEmpty (grid s) d) as Hg0.
  { intros d. unfold g0. rewrite enclosure_isEmpty by exact Hwf1.
    rewrite isEmpty_set by exact Hb.
    destruct (decide (d = c)) as [->|]; [|reflexivity].
    destruct (wf_on_board_cell (grid s) c Hg Hb) as [w Hw].
    unfold get. rewrite Hw. apply Z.eqb_neq, Hnext. }
  split; [exact Hnd|]. split; [|split; [exact P3|split; [|exact P2]]].
  - intros d Hd. rewrite (P1 d Hd), Hg0, decide_False by exact Hd.
    reflexivity.
  - rewrite P4, Hg0, decide_True by reflexivity. reflexivity.
Qed.

Lemma placePiece_accepts (drawn : Z) (s : Session) (c : coord) (r : resolution) :
  terminal s = false -> in_bounds c = true -> isEmpty (grid s) c = true ->
  placement s c = Some r ->
  placePiece drawn s c =
  Some (Accepted {| grid := board r;
                    score := score s + scoreDelta r;
                    movesPlayed := S (movesPlayed s);
                    nextItem := drawn;
                    terminal := isFull (board r) |}
                 (mergedPositions r)).
Proof.
  intros Ht Hb He Hr. unfold placePiece. rewrite Ht, Hb, He, Hr. reflexivity.
Qed.

Lemma placePiece_rejects (drawn : Z) (s : Session) (c : coord) :
  terminal s = true \/ in_bounds c = false \/ isEmpty (grid s) c = false ->
  exists reason, placePiece drawn s c = Some (Rejected reason).
Proof.
  unfold placePiece. intros H.
  destruct (terminal s); [eauto|].
  destruct (in_bounds c); [|eauto].
  destruct (isEmpty (grid s) c); [|eauto].
  destruct H as [H|[H|H]]; discriminate.
Qed.

Lemma play_sound (requests : list (coord * Z)) (s : Session) :
  wf_session s = true ->
  forallb (fun q => negb (snd q =? EMPTY)) requests = true ->
  exists s' deltas,
    play s requests = Some (s', deltas) /\
    score s' = score s + foldr Z.add 0 deltas /\
    movesPlayed s' = (movesPlayed s + length deltas)%nat /\
    score s' - score s
    = 10 * (Z.of_nat (occupied (grid s)) + Z.of_nat (length deltas)
            - Z.of_nat (occupied (grid s'))).
Proof.
  revert s. induction requests as [|[c drawn] rest IH]; intros s Hs Hreq.
  { exists s, []. cbn [play foldr length]. split; [reflexivity|].
    split; [lia|]. split; lia. }
  cbn [forallb snd] in Hreq.
  apply andb_true_iff in Hreq as [Hdrawn%negb_true_iff%Z.eqb_neq Hrest].
  cbn [play].
  destruct (terminal s) eqn:Ht; [|destruct (in_bounds c) eqn:Hb;
    [destruct (isEmpty (grid s) c) eqn:He|]].
  - destruct (placePiece_rejects drawn s c) as [reason ->]; auto.
  - destruct (placement_sound s c Hs Hb He) as (r & Hr & Hwf & _ & Hd & _).
    rewrite (placePiece_accepts drawn s c r Ht Hb He Hr), Hr.
    destruct (IH {| grid := board r; score := score s + scoreDelta r;
                    movesPlayed := S (movesPlayed s); nextItem := drawn;
                    terminal := isFull (board r) |})
      as (s' & deltas & Hplay & Hscore & Hmoves & Hcount); [|exact Hrest|].
    { apply wf_session_spec. auto. }
    rewrite Hplay. exists s', (scoreDelta r :: deltas).
    split; [reflexivity|].
    cbn [grid score movesPlayed] in Hscore, Hmoves, Hcount.
    cbn [foldr length]. split; [lia|]. split; lia.
  - destruct (placePiece_rejects drawn s c) as [reason ->]; auto.
  - destruct (placePiece_rejects drawn s c) as [reason ->]; auto.
Qed.

(** Scenario A of section 8: two grass side by side do not merge. *)
Example scenario_A :
  exists s', play (newGame 0) [((0, 0), 0); ((1, 0), 0)] = Some (s', [0; 0]) /\
             grid s' = grid scenario_B /\ score s' = 0.
Proof. eexists. split; [vm_compute; reflexivity|]. split; reflexivity. Qed.

(** Scenario D of section 8: a terminal session rejects every placement. *)
Example scenario_D (drawn : Z) (s : Session) (c : coord) :
  terminal s = true -> placePiece drawn s c = Some (Rejected "game over").
Proof. intros Ht. unfold placePiece. rewrite Ht. reflexivity. Qed.

(** C4, on the engine as the specification describes it.  An accepted
    placement adds to the score 10 times the number of cells its cascade
    removed (the non-Empty cells before, with the placed one, minus the
    non-Empty cells after).  The merged positions it reports are, without
    repetition, exactly the cells removed (non-Empty before the placement
    and Empty after it) and, when the placed cell completed a group of
    three or more, the placed cell itself, which is levelled and stays
    non-Empty; every other cell is as the enclosure pass left it.  So when
    nothing merged the list and the delta are both empty, and otherwise 10
    times the count of the positions, the points the view announces, is the
    delta plus 10.  The score of a game is the starting score plus the sum
    of the deltas of its accepted placements, one per move played, which is
    10 times the number of cells removed in the whole game. *)
Theorem score_is_ten_per_removed_cell
    (s : Session) (c : coord) (drawn : Z) (requests : list (coord * Z)) :
  wf_session s = true ->
  terminal s = false -> in_bounds c = true -> isEmpty (grid s) c = true ->
  forallb (fun q => negb (snd q =? EMPTY)) requests = true ->
  (exists s' merged,
     placePiece drawn s c = Some (Accepted s' merged) /\
     movesPlayed s' = S (movesPlayed s) /\
     (occupied (grid s') <= occupied (grid s) + 1)%nat /\
     score s' - score s
     = 10 * (Z.of_nat (occupied (grid s)) + 1 - Z.of_nat (occupied (grid s'))) /\
     NoDup merged /\
     (forall d, d <> c ->
        d ∈ merged <->
        isEmpty (grid s) d = false /\ isEmpty (grid s') d = true) /\
     (c ∈ merged <->
      (3 <= length (group (enclosure (set (grid s) c (nextItem s))) c))%nat) /\
     isEmpty (grid s') c = false /\
     (forall d, d ∉ merged ->
        get (grid s') d = get (enclosure (set (grid s) c (nextItem s))) d) /\
     ((merged = [] /\ score s' = score s) \/
      (c ∈ merged /\
       View.announced_points (length merged) = (score s' - score s) + 10))) /\
  (exists s' deltas,
     play s requests = Some (s', deltas) /\
     score s' = score s + foldr Z.add 0 deltas /\
     movesPlayed s' = (movesPlayed s + length deltas)%nat /\
     score s' - score s
     = 10 * (Z.of_nat (occupied (grid s)) + Z.of_nat (length deltas)
             - Z.of_nat (occupied (grid s')))).
Proof.
  intros Hs Ht Hb He Hreq. split; [|apply play_sound; assumption].
  destruct (placement_sound s c Hs Hb He) as (r & Hr & _ & Hle & Hd & Hcase).
  destruct (placement_positions s c r Hs Hb He Hr)
    as (Hnd & Hrem & Horigin & Hkept & Hframe).
  eexists _, _. split; [apply (placePiece_accepts drawn s c r); assumption|].
  cbn [grid score movesPlayed]. split; [reflexivity|]. split; [exact Hle|].
  split; [lia|]. split; [exact Hnd|]. split; [exact Hrem|].
  split; [exact Horigin|]. split; [exact Hkept|]. split; [exact Hframe|].
  unfold View.announced_points.
  destruct Hcase as [[Hnil Hzero]|[Hin Hcount]].
  - left. split; [exact Hnil | lia].
  - right. split; [exact Hin | lia].
Qed.

Lemma score_is_ten_per_removed_cell_witness :
  wf_session scenario_B = true /\ terminal scenario_B = false /\
  in_bounds (0, 1) = true /\ isEmpty (grid scenario_B) (0, 1) = true /\
  (exists s' merged,
     placePiece 1 scenario_B (0, 1) = Some (Accepted s' merged) /\
     score s' - score scenario_B
     = 10 * (Z.of_nat (occupied (grid scenario_B)) + 1
             - Z.of_nat (occupied (grid s'))) /\
     (0, 0) ∈ merged /\ (0, 1) ∈ merged /\ (5, 5) ∉ merged) /\
  (exists s' deltas,
     play scenario_B [((0, 1), 1); ((5, 5), 0)] = Some (s', deltas) /\
     score s' = score scenario_B + foldr Z.add 0 deltas).
Proof.
  destruct (score_is_ten_per_removed_cell scenario_B (0, 1) 1
              [((0, 1), 1); ((5, 5), 0)] eq_refl eq_refl eq_refl eq_refl eq_refl)
    as [(s1 & merged & Hplace & _ & _ & Hscore & _ & Hrem & Horigin & _)
        (s2 & deltas & Hplay & Hsum & _)].
  repeat (split; [reflexivity|]). split.
  - exists s1, merged. split; [exact Hplace|]. split; [exact Hscore|].
    assert (placePiece 1 scenario_B (0, 1)
            = Some (Accepted
                      {| grid := [[-99; -99; -99; -99; -99; -99];
                                  [1; -99; -99; -99; -99; -99];
                                  [-99; -99; -99; -99; -99; -99];
                                  [-99; -99; -99; -99; -99; -99];
                                  [-99; -99; -99; -99; -99; -99];
                                  [-99; -99; -99; -99; -99; -99]];
                         score := 20; movesPlayed := 3; nextItem := 1;
                         terminal := false |}
                      [(0, 1); (0, 0); (1, 0)])) as Hrun
      by (vm_compute; reflexivity).
    rewrite Hrun in Hplace. injection Hplace as <- <-.
    split; [|split].
    + apply Hrem; [discriminate|]. split; reflexivity.
    + apply Horigin. vm_compute. lia.
    + intros Hin. apply Hrem in Hin as [Hf _]; discriminate.
  - exists s2, deltas. auto.
Defined.

(** C4 fails as stated in its last part: in scenario B the placement that
    completes the L of three grass is awarded 20 points, for the two cells
    removed, while three positions are reported as merged and the view
    announces 30 points. *)
Lemma announced_points_exceed_the_delta :
  exists s',
    placePiece 1 scenario_B (0, 1)
    = Some (Accepted s' [(0, 1); (0, 0); (1, 0)]) /\
    score s' - score scenario_B = 20 /\
    occupied (grid scenario_B) = 2%nat /\ occupied (grid s') = 1%nat /\
    View.announced_points (length [(0, 1); (0, 0); (1, 0)]) = 30 /\
    View.announced_points (length [(0, 1); (0, 0); (1, 0)])
    <> score s' - score scenario_B.
Proof.
  eexists. split; [vm_compute; reflexivity|].
  repeat split; try reflexivity. discriminate.
Qed.

End EngineFacts.

(** ** More facts about the prototype and the view *)

Module MoreFacts.
Import Prototype PrototypeFacts Page.

(** *** What every collapse keeps, the cascade keeps *)

Section Preserved.
Variable I : Grid -> Prop.
Hypothesis collapse_keeps : forall g x y val,
  wf_grid g = true -> I g -> cell g (x, y) = Some val -> val <> 0 ->
  (3 <= length (sameTiles g val x y))%nat -> I (collapse g val x y).

Lemma scanCell_preserves (x y : Z) (m : bool) (g : Grid) :
  on_board (x, y) -> wf_grid g = true /\ I g ->
  exists g' m', scanCell x y m g = (g', Ok m') /\
                (wf_grid g' = true /\ I g') /\ (m' = false -> m = false /\ True).
Proof.
  intros Hb [Hg Hi].
  destruct (wf_on_board_cell g (x, y) Hg Hb) as [val Hc].
  rewrite (scanCell_eq _ _ _ _ _ Hc).
  destruct (has_group g (x, y)) eqn:Hgrp.
  - apply has_group_true in Hgrp as (v & Hv & Hv0 & Hlen).
    cbn [fst snd] in Hlen. assert (v = val) as -> by congruence.
    exists (collapse g val x y), true. split; [reflexivity|].
    split; [|discriminate]. split; [apply wf_collapse, Hg|].
    apply collapse_keeps; assumption.
  - exists g, m. split; [reflexivity|]. split; [split; assumption|].
    intros ->. split; [reflexivity | exact Logic.I].
Qed.

Lemma scan_preserves (g : Grid) :
  wf_grid g = true -> I g ->
  exists g' m, scan g = (g', Ok m) /\ wf_grid g' = true /\ I g'.
Proof.
  intros Hg Hi. unfold scan.
  destruct (forLoop_sound (fun _ g' => wf_grid g' = true /\ I g')
              (fun _ => True)
              (fun y m => forLoop indices (fun x m' => scanCell x y m') m)
              indices) with (m := false) (g := g)
    as (g' & m & Hrun & [Hg' Hi'] & _).
  - intros y m g0 Hy Hinv.
    destruct (forLoop_sound (fun _ g' => wf_grid g' = true /\ I g')
                (fun _ => True) (fun x m' => scanCell x y m') indices)
      with (m := m) (g := g0) as (g1 & m1 & Hrun1 & Hinv1 & Hm1).
    + intros x m1 g1 Hx Hinv1. apply scanCell_preserves; [|exact Hinv1].
      apply elem_of_indices in Hx, Hy. split; assumption.
    + exact Hinv.
    + exists g1, m1. split; [exact Hrun1|]. split; [exact Hinv1|].
      intros Hf. destruct (Hm1 Hf) as [-> _]. auto.
  - auto.
  - exists g', m. auto.
Qed.

Lemma mergeTiles_preserves (fuel : nat) (g g' : Grid) (r : res unit) :
  wf_grid g = true -> I g -> mergeTiles fuel g = (g', r) ->
  wf_grid g' = true /\ I g'.
Proof.
  revert g. induction fuel as [|n IH]; intros g Hg Hi Hrun.
  - injection Hrun as <- _. auto.
  - cbn [mergeTiles] in Hrun. unfold bind in Hrun.
    destruct (scan_preserves g Hg Hi) as (g1 & m & Hscan & Hg1 & Hi1).
    rewrite Hscan in Hrun. destruct m.
    + apply (IH g1); assumption.
    + injection Hrun as <- _. auto.
Qed.
End Preserved.

Lemma kept_cleared_or_raised_trans (a b c : option Z) :
  kept_cleared_or_raised a b -> kept_cleared_or_raised b c ->
  kept_cleared_or_raised a c.
Proof.
  unfold kept_cleared_or_raised.
  intros [->|[->|(v & v' & Hv & -> & -> & Hlt)]]
         [->|[->|(w & w' & Hw & Hb & -> & Hlt')]]; auto.
  - right. right. exists w, w'. auto.
  - injection Hb as <-. contradiction.
  - right. right. exists v, v'. auto.
  - injection Hb as <-. right. right. exists v, w'. repeat split; auto. lia.
Qed.

Lemma collapse_nonneg (g : Grid) (x y val : Z) :
  nonneg g -> cell g (x, y) = Some val -> nonneg (collapse g val x y).
Proof.
  intros Hn Hc c v Hv. rewrite cell_collapse in Hv by exact Hc.
  destruct (decide (c = (x, y))).
  - injection Hv as <-. specialize (Hn _ _ Hc). lia.
  - destruct (decide _); [injection Hv as <-; lia | eapply Hn, Hv].
Qed.

Lemma collapse_kept_cleared_or_raised (g : Grid) (x y val : Z) (c : coord) :
  cell g (x, y) = Some val -> val <> 0 ->
  kept_cleared_or_raised (cell g c) (cell (collapse g val x y) c).
Proof.
  intros Hc Hv. rewrite cell_collapse by exact Hc.
  destruct (decide (c = (x, y))) as [->|].
  - right. right. exists val, (val + 1). repeat split; auto. lia.
  - destruct (decide _); [right; left; reflexivity | left; reflexivity].
Qed.

Lemma put_nonneg (g : Grid) (c : coord) (v : Z) :
  nonneg g -> 0 <= v -> cell g c = Some 0 -> nonneg (put g c v).
Proof.
  intros Hn Hv Hc c' w Hw. destruct (cell_nonneg _ _ _ Hc) as [Hx Hy].
  rewrite cell_put in Hw by assumption.
  destruct (decide (c' = c)) as [->|]; [|eapply Hn, Hw].
  rewrite Hc in Hw. injection Hw as <-. exact Hv.
Qed.

Lemma initial_grid_nonneg : nonneg initial_grid.
Proof.
  intros c v Hv.
  pose proof (wf_cell_on_board initial_grid c v eq_refl Hv) as Hb.
  apply elem_of_cells in Hb.
  assert (Forall (fun c => cell initial_grid c = Some 0) cells) as Hall.
  { apply (bool_decide_unpack _). vm_compute. exact Logic.I. }
  rewrite Forall_forall in Hall. rewrite (Hall c Hb) in Hv.
  injection Hv as <-. lia.
Qed.

Lemma occupied_le_cells (g : Grid) : (occupied g <= 36)%nat.
Proof.
  unfold occupied. etransitivity; [apply length_filter|].
  vm_compute. reflexivity.
Qed.

Lemma occupied_put_empty (g : Grid) (c : coord) (v : Z) :
  cell g c = Some 0 -> v <> 0 -> on_board c ->
  occupied (put g c v) = (occupied g + 1)%nat.
Proof.
  intros Hc Hv Hb. destruct (cell_nonneg _ _ _ Hc) as [Hx Hy].
  pose proof (occupied_put g c v Hx Hy) as Hle.
  enough (occupied g + 1 <= occupied (put g c v))%nat by lia.
  unfold occupied. apply (count_drop1 _ _ cells c).
  - intros a _ (w & Hw & Hw0)%occupied_at_true. apply occupied_at_true.
    rewrite cell_put by assumption.
    destruct (decide (a = c)) as [->|]; [congruence | eauto].
  - apply elem_of_cells, Hb.
  - apply occupied_at_true. exists v. split; [|exact Hv].
    rewrite cell_put by assumption. rewrite decide_True by reflexivity.
    rewrite Hc. reflexivity.
  - intros (w & Hw & Hw0)%occupied_at_true. congruence.
Qed.

(** *** Boards of a game *)

Lemma reachable_nonneg (g : Grid) : reachable g -> nonneg g.
Proof.
  induction 1 as [|g below_08 fuel x y g' v Hr IH Hclick].
  - apply initial_grid_nonneg.
  - destruct (reachable_stable g Hr) as [Hg _].
    destruct (decide (cell g (x, y) = Some 0)) as [Hc|Hc].
    + rewrite (handleClick_accepted _ _ _ _ _ Hc) in Hclick.
      destruct (mergeTiles fuel _) as [g1 r] eqn:Hrun.
      assert (g1 = g') as -> by (destruct r; congruence).
      apply (mergeTiles_preserves nonneg) in Hrun as [_ Hn]; auto.
      * intros g0 x0 y0 val _ Hn Hv _ _. apply collapse_nonneg; assumption.
      * apply wf_put, Hg.
      * apply put_nonneg; [exact IH | destruct below_08; cbn; lia | exact Hc].
    + rewrite (handleClick_refused _ _ _ _ _ Hc) in Hclick.
      injection Hclick as <- _. exact IH.
Qed.

(** X1.  Every board of a game (the initial grid and every board a click
    leaves) has six rows of six cells, each holding a number that is not
    negative, and has no cell with a group of three or more waiting to
    merge: a further pass over it changes nothing and reports no merge. *)
Theorem boards_of_a_game (g : Grid) :
  reachable g ->
  wf_grid g = true /\ stable g /\ nonneg g /\
  (forall c, on_board c -> exists v, cell g c = Some v /\ 0 <= v) /\
  scan g = (g, Ok false).
Proof.
  intros Hr. destruct (reachable_stable g Hr) as [Hg Hst].
  pose proof (reachable_nonneg g Hr) as Hn.
  split; [exact Hg|]. split; [exact Hst|]. split; [exact Hn|]. split.
  - intros c Hc. destruct (wf_on_board_cell g c Hg Hc) as [v Hv].
    exists v. split; [exact Hv | eapply Hn, Hv].
  - apply scan_stable; assumption.
Qed.

Lemma boards_of_a_game_witness :
  reachable one_tile_board /\
  wf_grid one_tile_board = true /\ stable one_tile_board /\
  nonneg one_tile_board.
Proof.
  assert (reachable one_tile_board) as Hr.
  { exact (reachable_click initial_grid true 1 2 3 one_tile_board js_undefined
             reachable_initial eq_refl). }
  destruct (boards_of_a_game one_tile_board Hr) as (Hg & Hst & Hn & _).
  auto.
Defined.

(** X2.  The cascade never lowers a tile: every cell of the board it
    returns holds what it held, or 0, or, when it was occupied, a greater
    number. *)
Theorem cascade_keeps_clears_or_raises (g : Grid) (fuel : nat) :
  wf_grid g = true -> (occupied g < 2 * fuel)%nat ->
  exists g', mergeTiles fuel g = (g', Ok tt) /\
             forall c, kept_cleared_or_raised (cell g c) (cell g' c).
Proof.
  intros Hg Hfuel.
  destruct (mergeTiles_sound fuel g Hg Hfuel) as (g' & Hrun & _).
  exists g'. split; [exact Hrun|].
  apply (mergeTiles_preserves
           (fun g1 => forall c, kept_cleared_or_raised (cell g c) (cell g1 c)))
    in Hrun as [_ Hrel]; auto.
  - intros g0 x y val _ Hrel Hc Hv _ c.
    eapply kept_cleared_or_raised_trans; [apply Hrel|].
    apply collapse_kept_cleared_or_raised; assumption.
  - intros c. left. reflexivity.
Qed.

Lemma cascade_keeps_clears_or_raises_witness :
  wf_grid corner_board = true /\ (occupied corner_board < 2 * 2)%nat /\
  exists g', mergeTiles 2 corner_board = (g', Ok tt) /\
             forall c, kept_cleared_or_raised (cell corner_board c) (cell g' c).
Proof.
  assert (occupied corner_board < 2 * 2)%nat as Hfuel.
  { apply Nat.ltb_lt. vm_compute. reflexivity. }
  split; [reflexivity|]. split; [exact Hfuel|].
  exact (cascade_keeps_clears_or_raises corner_board 2 eq_refl Hfuel).
Defined.

(** X3.  A click on an empty cell of a board never fails and needs at most
    19 passes.  Either the new tile completes no group anywhere, and the
    board is the old one with the tile added, or a merge follows, and the
    board ends with fewer tiles than before the click. *)
Theorem click_adds_a_tile_or_merges (below_08 : bool) (x y : Z) (g : Grid) :
  wf_grid g = true -> cell g (x, y) = Some 0 ->
  exists g',
    handleClick below_08 19 x y g = (g', Ok js_undefined) /\
    wf_grid g' = true /\
    ((stable (put g (x, y) (getRandomTile below_08)) /\
      g' = put g (x, y) (getRandomTile below_08) /\
      occupied g' = (occupied g + 1)%nat) \/
     (~ stable (put g (x, y) (getRandomTile below_08)) /\
      (occupied g' + 1 <= occupied g)%nat)).
Proof.
  intros Hg Hc. rewrite (handleClick_accepted _ _ _ _ _ Hc).
  set (g1 := put g (x, y) (getRandomTile below_08)).
  assert (wf_grid g1 = true) as Hg1 by apply wf_put, Hg.
  assert (occupied g1 = occupied g + 1)%nat as Hocc.
  { apply (occupied_put_empty g (x, y) _ Hc).
    - destruct below_08; cbn; lia.
    - exact (wf_cell_on_board g (x, y) 0 Hg Hc). }
  pose proof (occupied_le_cells g) as Hle.
  destruct (mergeTiles_sound 19 g1 Hg1) as (g' & Hrun & Hg' & _ & _ & _ & Hiff);
    [lia|].
  rewrite Hrun. exists g'. split; [reflexivity|]. split; [exact Hg'|].
  destruct (scan_sound g1 Hg1) as (g2 & m & Hscan & Hinv & Hst).
  destruct Hinv as (Hg2 & _ & _ & Hm). destruct m.
  - right. destruct Hm as (Hdrop & c & Hb & Hgrp). split.
    + intros Hs. rewrite Hs in Hgrp by exact Hb. discriminate.
    + change (mergeTiles 19 g1)
        with (bind scan (fun merged : bool =>
                           if merged then mergeTiles 18 else ret tt) g1) in Hrun.
      unfold bind in Hrun. rewrite Hscan in Hrun.
      apply mergeTiles_partial in Hrun as (_ & _ & Hocc' & _); [lia|exact Hg2].
  - left. pose proof (Hst eq_refl) as Hs. split; [exact Hs|].
    apply Hiff in Hs. subst g'. auto.
Qed.

Lemma click_adds_a_tile_or_merges_witness :
  wf_grid pair_board = true /\ cell pair_board (0, 1) = Some 0 /\
  exists g',
    handleClick true 19 0 1 pair_board = (g', Ok js_undefined) /\
    wf_grid g' = true.
Proof.
  destruct (click_adds_a_tile_or_merges true 0 1 pair_board eq_refl eq_refl)
    as (g' & Hrun & Hg' & _).
  split; [reflexivity|]. split; [reflexivity|]. exists g'. auto.
Defined.

(** *** The page *)

Lemma forChildren_append (l : list Z)
    (body : Z -> list element -> M (list element))
    (f : Z -> list element) (g : Grid) :
  (forall i ch, i ∈ l -> body i ch g = (g, Ok (ch ++ f i))) ->
  forall ch, forChildren l body ch g = (g, Ok (ch ++ (l ≫= f))).
Proof.
  induction l as [|i l IH]; intros Hbody ch.
  - cbn. rewrite app_nil_r. reflexivity.
  - cbn [forChildren]. unfold bind. rewrite Hbody by left.
    rewrite IH by (intros j ch' Hj; apply Hbody; right; exact Hj).
    rewrite <- app_assoc. reflexivity.
Qed.

Lemma createCell_eq (g : Grid) (x y : Z) (row : list Z) :
  js_index g y = Some row ->
  createCell x y g = (g, Ok (element_of g (x, y))).
Proof.
  intros Hrow. unfold createCell, bind, get, ret, element_of, cell.
  cbn [fst snd]. rewrite Hrow. reflexivity.
Qed.

Lemma createGrid_eq (g : Grid) :
  wf_grid g = true -> createGrid g = (g, Ok (element_of g <$> cells)).
Proof.
  intros Hg. unfold createGrid.
  rewrite (forChildren_append indices _
             (fun y => indices ≫= fun x => [element_of g (x, y)])).
  - reflexivity.
  - intros y ch Hy.
    apply (forChildren_append indices _ (fun x => [element_of g (x, y)])).
    intros x ch' Hx. unfold bind.
    apply elem_of_indices in Hx, Hy.
    destruct (wf_on_board_cell g (x, y) Hg) as [v Hv]; [split; assumption|].
    apply cell_Some in Hv as (row & Hrow & _). cbn [snd] in Hrow.
    rewrite (createCell_eq g x y row Hrow). reflexivity.
Qed.

Lemma cells_lookup (x y : Z) :
  on_board (x, y) -> cells !! Z.to_nat (y * gridSize + x) = Some (x, y).
Proof.
  unfold on_board, gridSize. cbn [fst snd]. intros [Hx Hy].
  assert (x = 0 \/ x = 1 \/ x = 2 \/ x = 3 \/ x = 4 \/ x = 5) as Hxs by lia.
  assert (y = 0 \/ y = 1 \/ y = 2 \/ y = 3 \/ y = 4 \/ y = 5) as Hys by lia.
  destruct Hxs as [->|[->|[->|[->|[->| ->]]]]];
    destruct Hys as [->|[->|[->|[->|[->| ->]]]]]; reflexivity.
Qed.

Lemma label_Some (value : option Z) (s : string) :
  label value = Some s <->
  exists v, value = Some v /\ 0 < v /\ s = js_string_of_int v.
Proof.
  unfold label. destruct value as [v|]; [|split; [discriminate|]].
  - destruct (Z.gtb_spec v 0); split.
    + intros [= <-]. eauto.
    + intros (w & [= <-] & _ & ->). reflexivity.
    + discriminate.
    + intros (w & [= <-] & Hw & _). lia.
  - intros (w & [=] & _).
Qed.

Lemma safe_grid_cell (g : Grid) (c : coord) (v : Z) :
  safe_grid g = true -> cell g c = Some v -> safe_integer v = true.
Proof.
  unfold safe_grid. intros Hs (row & Hrow & Hv)%cell_Some.
  apply js_index_Some in Hrow as [_ Hrow]. apply js_index_Some in Hv as [_ Hv].
  apply list_elem_of_lookup_2 in Hrow, Hv.
  rewrite forallb_forall in Hs. apply list_elem_of_In in Hrow, Hv.
  specialize (Hs row Hrow). rewrite forallb_forall in Hs. exact (Hs v Hv).
Qed.

Lemma safe_integer_spec (v : Z) :
  safe_integer v = true <-> - 2 ^ 53 < v < 2 ^ 53.
Proof.
  unfold safe_integer. rewrite andb_true_iff, !Z.ltb_lt. reflexivity.
Qed.

(** X4.  On a board whose numbers are safe integers (between -2^53 and
    2^53, far below the 10^21 from which JavaScript writes a number with
    an exponent), [createGrid] leaves the grid as it is and gives the page
    36 elements, row after row: the element number [6 y + x] listens for
    the cell [(x, y)], and it carries a text (and the same [data-type])
    exactly when that cell holds a positive number, whose decimal writing
    is the text. *)
Theorem createGrid_draws_the_board (g : Grid) (x y : Z) :
  wf_grid g = true -> safe_grid g = true -> on_board (x, y) ->
  exists els el,
    createGrid g = (g, Ok els) /\
    length els = 36%nat /\
    els !! Z.to_nat (y * gridSize + x) = Some el /\
    listener el = (x, y) /\
    classList el = ["cell"%string] /\
    dataset_type el = textContent el /\
    (forall s, textContent el = Some s <->
       exists v, cell g (x, y) = Some v /\ 0 < v < 2 ^ 53 /\
                 s = js_string_of_int v).
Proof.
  intros Hg Hs Hb. exists (element_of g <$> cells), (element_of g (x, y)).
  split; [apply createGrid_eq, Hg|]. split; [rewrite length_fmap; reflexivity|].
  split; [rewrite list_lookup_fmap, (cells_lookup x y Hb); reflexivity|].
  split; [reflexivity|]. split; [reflexivity|]. split; [reflexivity|].
  intros s. unfold element_of. cbn [textContent]. rewrite label_Some.
  split; intros (v & Hv & Hpos & ->); exists v.
  - pose proof (safe_grid_cell g (x, y) v Hs Hv) as Hsafe.
    apply safe_integer_spec in Hsafe. repeat split; [assumption | lia..].
  - repeat split; [assumption | lia].
Qed.

Lemma createGrid_draws_the_board_witness :
  wf_grid corner_board = true /\ safe_grid corner_board = true /\
  on_board (0, 1) /\
  exists els el,
    createGrid corner_board = (corner_board, Ok els) /\
    els !! 6%nat = Some el /\ listener el = (0, 1) /\
    textContent el = Some "1"%string.
Proof.
  assert (on_board (0, 1)) as Hb by (unfold on_board, gridSize; cbn; lia).
  destruct (createGrid_draws_the_board corner_board 0 1 eq_refl eq_refl Hb)
    as (els & el & Hrun & _ & Hel & Hl & _ & _ & Htext).
  split; [reflexivity|]. split; [reflexivity|]. split; [exact Hb|].
  exists els, el.
  split; [exact Hrun|]. split; [exact Hel|]. split; [exact Hl|].
  apply Htext. exists 1. split; [reflexivity|]. split; [lia | reflexivity].
Defined.

(** X5.  On a board of a game the page and the clicks agree.  A click on an
    element that carries a text changes nothing; an element without a text
    stands for an empty cell, and a click on it is accepted: it returns
    within 19 passes and leaves a board of the game. *)
Theorem click_on_a_drawn_element
    (g : Grid) (els : list element) (el : element)
    (below_08 : bool) (fuel : nat) :
  reachable g -> createGrid g = (g, Ok els) -> el ∈ els ->
  (is_Some (textContent el) ->
   click below_08 fuel el g = (g, Ok js_undefined)) /\
  (textContent el = None ->
   cell g (listener el) = Some 0 /\
   exists g', click below_08 19 el g = (g', Ok js_undefined) /\
              reachable g').
Proof.
  intros Hr Hrun Hel.
  destruct (reachable_stable g Hr) as [Hg _].
  pose proof (reachable_nonneg g Hr) as Hn.
  rewrite createGrid_eq in Hrun by exact Hg.
  assert (els = element_of g <$> cells) as -> by congruence.
  apply list_elem_of_fmap in Hel as (c & -> & Hc%elem_of_cells).
  destruct (wf_on_board_cell g c Hg Hc) as [v Hv].
  unfold click, element_of. cbn [listener textContent]. destruct c as [x y].
  cbn [fst snd]. split.
  - intros [s (w & Hw & Hpos & _)%label_Some].
    rewrite handleClick_refused by (rewrite Hw; intros [=]; lia).
    apply cell_Some in Hw as (row & Hrow & _). cbn [snd] in Hrow.
    rewrite Hrow. reflexivity.
  - intros Hnone. assert (v = 0) as ->.
    { specialize (Hn _ _ Hv). rewrite Hv in Hnone. cbn in Hnone.
      destruct (Z.gtb_spec v 0); [discriminate | lia]. }
    split; [exact Hv|].
    pose proof (handleClick_accepted below_08 19 x y g Hv) as Hacc.
    destruct (cell_nonneg _ _ _ Hv) as [Hx Hy].
    pose proof (occupied_put g (x, y) (getRandomTile below_08) Hx Hy) as Hle.
    pose proof (occupied_le_cells g) as H36.
    destruct (mergeTiles_sound 19 (put g (x, y) (getRandomTile below_08)))
      as (g' & Hm & _); [apply wf_put, Hg | lia |].
    rewrite Hm in Hacc. exists g'. split; [exact Hacc|].
    exact (reachable_click g below_08 19 x y g' js_undefined Hr Hacc).
Qed.

Lemma click_on_a_drawn_element_witness :
  reachable one_tile_board /\
  createGrid one_tile_board
  = (one_tile_board, Ok (element_of one_tile_board <$> cells)) /\
  element_of one_tile_board (2, 3) ∈ element_of one_tile_board <$> cells /\
  click true 1 (element_of one_tile_board (2, 3)) one_tile_board
  = (one_tile_board, Ok js_undefined).
Proof.
  assert (reachable one_tile_board) as Hr.
  { exact (reachable_click initial_grid true 1 2 3 one_tile_board js_undefined
             reachable_initial eq_refl). }
  assert (element_of one_tile_board (2, 3)
          ∈ element_of one_tile_board <$> cells) as Hel.
  { apply list_elem_of_fmap_2, elem_of_cells.
    unfold on_board, gridSize. cbn. lia. }
  destruct (click_on_a_drawn_element one_tile_board _
              (element_of one_tile_board (2, 3)) true 1 Hr
              (createGrid_eq one_tile_board eq_refl) Hel) as [Hlab _].
  split; [exact Hr|]. split; [apply createGrid_eq; reflexivity|].
  split; [exact Hel|]. apply Hlab. eexists. reflexivity.
Defined.

(** *** The keys of the tiles *)

Import ViewState.

Lemma string_of_uint_no_dash (d : uint) :
  no_dash (NilZero.string_of_uint d) = true.
Proof.
  assert (no_dash (NilEmpty.string_of_uint d) = true) as H.
  { induction d; cbn; auto. }
  destruct d; exact H || reflexivity.
Qed.

Lemma string_of_uint_not_empty (d : uint) :
  NilZero.string_of_uint d <> EmptyString.
Proof. destruct d; discriminate. Qed.

Lemma split_at_dash (l1 l2 r1 r2 : string) :
  no_dash l1 = true -> no_dash l2 = true ->
  l1 +:+ String "-" r1 = l2 +:+ String "-" r2 -> l1 = l2 /\ r1 = r2.
Proof.
  revert l2. induction l1 as [|a l1 IH]; intros [|b l2] H1 H2 Heq;
    cbn in H1, H2, Heq.
  - injection Heq as <-. auto.
  - injection Heq as <- _. discriminate.
  - injection Heq as -> _. discriminate.
  - injection Heq as -> Heq.
    apply andb_true_iff in H1 as [_ H1], H2 as [_ H2].
    destruct (IH l2 H1 H2 Heq) as [-> ->]. auto.
Qed.

Lemma to_int_not_nil (z : Z) : Z.to_int z <> Pos Nil /\ Z.to_int z <> Neg Nil.
Proof.
  destruct z as [|p|p]; cbn; split; try discriminate;
    intros [= H]; exact (DecimalPos.Unsigned.to_uint_nonnil p H).
Qed.

Lemma js_string_of_int_inj (z z' : Z) :
  js_string_of_int z = js_string_of_int z' -> z = z'.
Proof.
  unfold js_string_of_int. intros Heq.
  apply DecimalZ.to_int_inj.
  destruct (to_int_not_nil z) as [Hp Hn], (to_int_not_nil z') as [Hp' Hn'].
  pose proof (NilZero.isi _ Hp Hn) as H1.
  pose proof (NilZero.isi _ Hp' Hn') as H2.
  rewrite Heq in H1. congruence.
Qed.

(** The writing of an integer: digits, after a minus sign or not. *)
Lemma js_string_of_int_shape (z : Z) :
  exists digits,
    no_dash digits = true /\ digits <> EmptyString /\
    (js_string_of_int z = digits \/ js_string_of_int z = String "-" digits).
Proof.
  unfold js_string_of_int.
  destruct (Z.to_int z) as [d|d]; exists (NilZero.string_of_uint d);
    (split; [apply string_of_uint_no_dash|]);
    (split; [apply string_of_uint_not_empty|]); cbn; auto.
Qed.

Lemma getTileKey_inj (x y x' y' : Z) :
  getTileKey x y = getTileKey x' y' -> x = x' /\ y = y'.
Proof.
  unfold getTileKey. intros Heq.
  enough (js_string_of_int x = js_string_of_int x' /\
          js_string_of_int y = js_string_of_int y') as [Hx Hy].
  { split; apply js_string_of_int_inj; assumption. }
  change ("-" +:+ js_string_of_int y) with (String "-" (js_string_of_int y))
    in Heq.
  change ("-" +:+ js_string_of_int y') with (String "-" (js_string_of_int y'))
    in Heq.
  destruct (js_string_of_int_shape x) as (d & Hd & Hne & [Hx|Hx]);
    destruct (js_string_of_int_shape x') as (d' & Hd' & Hne' & [Hx'|Hx']);
    rewrite Hx, Hx' in *.
  - apply split_at_dash; assumption.
  - destruct d as [|a d]; [contradiction|]. cbn in Heq, Hd.
    injection Heq as -> _. discriminate.
  - destruct d' as [|a d']; [contradiction|]. cbn in Heq, Hd'.
    injection Heq as <- _. discriminate.
  - cbn in Heq. injection Heq as Heq.
    destruct (split_at_dash d d' _ _ Hd Hd' Heq) as [-> ->]. auto.
Qed.

(** X6.  The key of a tile identifies the tile: two tiles have the same key
    only when they are the same tile, so a tile is animated exactly when
    its coordinates are among the merged positions of the answer. *)
Theorem tile_key_identifies_the_tile
    (x y x' y' : Z) (merged_positions : list (Z * Z)) :
  (getTileKey x y = getTileKey x' y' <-> x = x' /\ y = y') /\
  (isAnimating (mergedSet merged_positions) x y = true <->
   (x, y) ∈ merged_positions).
Proof.
  split.
  - split; [apply getTileKey_inj | intros [-> ->]; reflexivity].
  - unfold isAnimating, mergedSet.
    rewrite bool_decide_eq_true, elem_of_list_to_set, list_elem_of_fmap.
    split.
    + intros ([px py] & Hkey & Hin). cbn [fst snd] in Hkey.
      apply getTileKey_inj in Hkey as [-> ->]. exact Hin.
    + intros Hin. exists (x, y). auto.
Qed.

(** X7.  A cell value that has no entry in the table is drawn with the
    emoji and the colour of the empty cell, but it is not an empty cell: its
    button is disabled whatever the state of the game. *)
Theorem value_without_entry (v : Z) (game_over loading : bool) :
  View.js_property View.ITEM_TYPES v = None ->
  View.getTileContent v = View.getTileContent (-99) /\
  View.isEmpty v = false /\
  View.disabled v game_over loading = true.
Proof.
  intros Hnone.
  assert (v <> -99) as Hne.
  { intros ->. discriminate Hnone. }
  unfold View.getTileContent, View.disabled, View.isEmpty. rewrite Hnone.
  apply Z.eqb_neq in Hne. rewrite Hne. auto.
Qed.

Lemma value_without_entry_witness :
  View.js_property View.ITEM_TYPES 8 = None /\
  View.getTileContent 8 = View.getTileContent (-99) /\
  View.isEmpty 8 = false /\ View.disabled 8 false false = true.
Proof.
  split; [reflexivity|].
  exact (value_without_entry 8 false false eq_refl).
Defined.

End MoreFacts.
